(** * tredparse server: command dispatch, memoisation and rate limiting

    A shallow embedding of the Meteor methods of the documents API
    (documents.upsert, documents.remove, docker.hli, docker.public and the
    rateLimit registration) together with the properties their
    specification states about them.

    JavaScript objects are finite maps from property names to values, the
    Documents collection is a finite map from _id to stored objects, and the
    asynchronous exec callback is a closure kept in the state until the
    process result is delivered.  Strings are sequences of bytes.  The
    clock, the caller's connection and the value of Random.id() are inputs
    of every event ([Env]); what exec delivers to a callback is an input of
    the completion event ([ExecResult]), either given as such or collected
    under maxBuffer from what the child process wrote ([Child]). *)

From Stdlib Require Import ZArith Lia Ascii.
From stdpp Require Import gmap strings list fin_maps.

Local Open Scope Z_scope.

(** ** JavaScript values and objects *)

Inductive value :=
  | Undefined
  | Null
  | Str (s : string)
  | Date (ms : Z).

#[global] Instance value_eq_dec : EqDecision value.
Proof. solve_decision. Defined.

(** An object literal: property name to value.  A property that is absent
    reads as [Undefined]. *)
Abbreviation object := (gmap string value).

Definition get (o : object) (k : string) : value := default Undefined (o !! k).

(** Truthiness of the values that occur in conditions. *)
Definition truthy (v : value) : bool :=
  match v with
  | Undefined | Null => false
  | Str s => negb (bool_decide (s = ""))
  | Date _ => true
  end.

(** An Error object as child_process hands it to the callback. *)
Record Error := { errorName : string; errorMessage : string }.

(** Error.prototype.toString *)
Definition Error_toString (e : Error) : string :=
  if bool_decide (errorName e = "") then errorMessage e
  else if bool_decide (errorMessage e = "") then errorName e
  else errorName e +:+ ": " +:+ errorMessage e.

(** Length of a string in bytes. *)
Fixpoint byteLength (s : string) : Z :=
  match s with
  | EmptyString => 0
  | String _ r => 1 + byteLength r
  end.

(** ** JSON.stringify on the one shape the code serialises, {error: s} *)
Module JSON.

Definition quote : ascii := ascii_of_nat 34.
Definition backslash : ascii := ascii_of_nat 92.

Definition hex_digit (n : nat) : ascii :=
  if (n <? 10)%nat then ascii_of_nat (48 + n) else ascii_of_nat (87 + n).

(** QuoteJSONString on one character: the two-character escapes, \u00xx for
    the other control characters, the character itself otherwise. *)
Definition escape_char (c : ascii) : string :=
  let n := nat_of_ascii c in
  if (n =? 34)%nat then String backslash (String quote "")
  else if (n =? 92)%nat then String backslash (String backslash "")
  else if (n =? 8)%nat then String backslash "b"
  else if (n =? 12)%nat then String backslash "f"
  else if (n =? 10)%nat then String backslash "n"
  else if (n =? 13)%nat then String backslash "r"
  else if (n =? 9)%nat then String backslash "t"
  else if (n <? 32)%nat then
    String backslash ("u00" +:+ String (hex_digit (n / 16)) (String (hex_digit (n mod 16)) ""))
  else String c "".

Fixpoint escape (s : string) : string :=
  match s with
  | EmptyString => EmptyString
  | String c r => escape_char c +:+ escape r
  end.

Definition quoted (s : string) : string :=
  String quote (escape s +:+ String quote "").

(** JSON.stringify({ error: s }) *)
Definition stringify_error (s : string) : string :=
  "{" +:+ quoted "error" +:+ ":" +:+ quoted s +:+ "}".

End JSON.

(** ** The Documents collection (Result Store) *)
Module Collection.

(** The table of Records, keyed by _id. *)
Abbreviation t := (gmap string object).

(** Modelled from the spec: the persistence layer behind ./documents is not
    part of the sources.  What the store keeps of a value: an undefined
    property is stored as null. *)
Definition stored (v : value) : value :=
  match v with Undefined => Null | _ => v end.

(** Modelled from the spec: the exact-match filter of find on one field
    (find supports at least an exact-match filter on command/title).  A null
    or undefined query value matches the Records in which the field is null
    or missing. *)
Definition field_is (k : string) (v : value) (d : object) : bool :=
  match stored v with
  | Null => bool_decide (d !! k = None ∨ d !! k = Some Null)
  | w => bool_decide (d !! k = Some w)
  end.

(** Modelled from the spec: find(filter), a non-mutating lookup that yields
    the matching Records. *)
Definition find (k : string) (v : value) (c : t) : t :=
  filter (λ kd, field_is k v kd.2 = true) c.

(** Modelled from the spec: count, the number of matching Records. *)
Definition count (c : t) : nat := size c.

(** Modelled from the spec: findOne(id), a non-mutating lookup by id. *)
Definition findOne (_id : string) (c : t) : option object := c !! _id.

(** Modelled from the spec: the id an upsert with selector { _id: sel }
    writes to, the selected id, or a fresh one when the selector carries none
    (a Record is keyed by a fresh or pre-supplied id). *)
Definition upsert_key (sel : value) (fresh : string) : string :=
  match sel with
  | Str i => i
  | _ => fresh
  end.

(** Modelled from the spec: { $set: fields } on a Record, the listed fields
    are overwritten and all others retained. *)
Definition set_fields (fields : object) (old : object) : object :=
  (stored <$> fields) ∪ old.

(** Modelled from the spec: upsert(id, fields) inserts a new Record or
    merges fields into the Record with the matching id; the Record carries
    its id as the property _id. *)
Definition upsert (sel : value) (fields : object) (fresh : string) (c : t) : t :=
  let k := upsert_key sel fresh in
  <[k := <["_id" := Str k]> (set_fields fields (default ∅ (c !! k)))]> c.

(** Modelled from the spec: remove(id) deletes the Record and is a no-op
    when it is absent; a selector that is no id matches nothing. *)
Definition remove (sel : value) (c : t) : t :=
  match sel with
  | Str i => delete i c
  | _ => c
  end.

End Collection.

(** ** Effects: state passing with exceptions *)

Inductive exn :=
  | TypeError (msg : string).

Inductive completion (A : Type) :=
  | Normal (a : A)
  | Throw (e : exn).
Arguments Normal {A} a.
Arguments Throw {A} e.

(** A computation over a state of type [S] that returns normally or throws;
    the state changes made before a throw are kept. *)
Definition Js (S A : Type) : Type := S → completion A * S.

Definition ret {S A} (a : A) : Js S A := λ s, (Normal a, s).

Definition throw {S A} (e : exn) : Js S A := λ s, (Throw e, s).

Definition bind {S A B} (m : Js S A) (k : A → Js S B) : Js S B :=
  λ s, match m s with
       | (Normal a, s') => k a s'
       | (Throw e, s') => (Throw e, s')
       end.

Notation "'let!' x ':=' m 'in' k" := (bind m (λ x, k))
  (at level 10, x name, m at level 100, k at level 200, only parsing).
Notation "m ';;;' k" := (bind m (λ _, k))
  (at level 100, k at level 200, right associativity, only parsing).

(** What the environment supplies to one event: the clock, the DDP
    connection of the caller and the value the next Random.id() returns. *)
Record Env := { now : Z; connection : string; randomId : string }.

(** The part of the server a completion callback works on. *)
Record Server := { Documents : gmap string object; console : list string }.

(** The callback handed to exec: (err, stdout, stderr) => { ... } *)
Definition Callback : Type :=
  option Error → string → string → Env → Js Server unit.

(** One call of child_process.exec(command, { maxBuffer }, callback). *)
Record Process := { command : string; maxBuffer : Z; callback : Callback }.

(** What a method returns to its caller. *)
Inductive result :=
  | RNull
  | RUndefined
  | RUpsert (numberAffected : nat) (insertedId : option string).

(** ** Rate limiter *)
Module RateLimit.

(** Modelled from the spec: the module ../../modules/rate-limit is not part
    of the sources.  A rule names the tracked methods, the cap N (limit) and
    the length W of the window in milliseconds (timeRange). *)
Record Rule := { methods : list string; limit : nat; timeRange : Z }.

(** The count of one (method, caller) pair in its current window. *)
Record Bucket := { windowStart : Z; calls : nat }.

Abbreviation t := (gmap (string * string) Bucket).

(** Modelled from the spec: the window is a fixed bucket of W milliseconds,
    live while fewer than W milliseconds have passed since it was opened. *)
Definition live (r : Rule) (now : Z) (b : Bucket) : bool :=
  now - windowStart b <? timeRange r.

(** Modelled from the spec: the bucket a call at [now] is counted in, the
    live one, or a new one opened by this call. *)
Definition current (r : Rule) (now : Z) (o : option Bucket) : Bucket :=
  match o with
  | Some b => if live r now b then b else {| windowStart := now; calls := 0 |}
  | None => {| windowStart := now; calls := 0 |}
  end.

(** Modelled from the spec: allow(methodName, callerContext) keeps, per
    tracked method and caller, the count of calls observed in the window and
    returns false when the count exceeds N; a method the rule does not
    track is always allowed and not counted. *)
Definition allow (r : Rule) (methodName caller : string) (now : Z) (l : t) : bool * t :=
  if bool_decide (methodName ∈ methods r) then
    let b := current r now (l !! (methodName, caller)) in
    let n := S (calls b) in
    (bool_decide (n ≤ limit r)%nat,
     <[(methodName, caller) := {| windowStart := windowStart b; calls := n |}]> l)
  else (true, l).

End RateLimit.

(** ** Server state *)

Record State := {
  server : Server;
  processes : list Process;
  limiter : gmap (string * string) RateLimit.Bucket;
}.

Definition init : State :=
  {| server := {| Documents := ∅; console := [] |}; processes := []; limiter := ∅ |}.

Definition set_server (sv : Server) (s : State) : State :=
  {| server := sv; processes := processes s; limiter := limiter s |}.

Definition set_limiter (l : gmap (string * string) RateLimit.Bucket) (s : State) : State :=
  {| server := server s; processes := processes s; limiter := l |}.

(** Run a computation on the Documents and the console inside the server. *)
Definition lift {A} (m : Js Server A) : Js State A :=
  λ s, let (r, sv) := m (server s) in (r, set_server sv s).

(** Documents.upsert(selector, { $set: fields }) *)
Definition Documents_upsert (sel : value) (fields : object) (env : Env) : Js Server result :=
  λ sv,
    let k := Collection.upsert_key sel (randomId env) in
    let r := match Documents sv !! k with
             | Some _ => RUpsert 1 None
             | None => RUpsert 1 (Some k)
             end in
    (Normal r,
     {| Documents := Collection.upsert sel fields (randomId env) (Documents sv);
        console := console sv |}).

(** Documents.remove(_id) *)
Definition Documents_remove (_id : value) : Js Server unit :=
  λ sv, (Normal (),
         {| Documents := Collection.remove _id (Documents sv); console := console sv |}).

(** Documents.find({ title }).count() *)
Definition Documents_find_title_count (title : value) : Js Server nat :=
  λ sv, (Normal (Collection.count (Collection.find "title" title (Documents sv))), sv).

(** console.error(line) *)
Definition console_error (line : string) : Js Server unit :=
  λ sv, (Normal (), {| Documents := Documents sv; console := console sv ++ [line] |}).

(** exec(command, { maxBuffer }, callback): the process is started and the
    callback kept until its result is delivered. *)
Definition exec (command : string) (maxBuffer : Z) (callback : Callback) : Js State unit :=
  λ s, (Normal (),
        {| server := server s;
           processes := processes s ++ [Build_Process command maxBuffer callback];
           limiter := limiter s |}).

(** ** The methods *)

(** A SimpleSchema whose keys all have type String: (key, optional). *)
Definition SimpleSchema : Type := list (string * bool).

Definition is_Str (v : value) : bool :=
  match v with Str _ => true | _ => false end.

(** A property that holds null or undefined counts as not set. *)
Definition is_set (v : value) : bool :=
  match v with Undefined | Null => false | _ => true end.

(** schema.validator(): every property of the argument is a key of the
    schema; a property that is set holds a string, while null and undefined
    are not type-checked; and every key that is not optional is set. *)
Definition validator (schema : SimpleSchema) (o : object) : bool :=
  bool_decide (map_Forall (λ k v, k ∈ schema.*1 ∧ (is_Str v || negb (is_set v)) = true) o)
  && forallb (λ f, f.2 || is_set (get o f.1)) schema.

Record ValidatedMethod := {
  name : string;
  validate : object → bool;
  run : object → Env → Js State result;
}.

(** Template-literal interpolation of ${v}.  The schemas admit strings
    only, so a validated property is a string, null or undefined. *)
Definition interpolate (v : value) : string :=
  match v with
  | Undefined => "undefined"
  | Null => "null"
  | Str s => s
  | Date _ => "[object Date]"
  end.

Definition upsertDocument : ValidatedMethod := {|
  name := "documents.upsert";
  validate := validator [("_id", true); ("title", true); ("body", true); ("stderr", true)];
  run document env := lift (Documents_upsert (get document "_id") document env);
|}.

Definition removeDocument : ValidatedMethod := {|
  name := "documents.remove";
  validate := validator [("_id", false)];
  run document env :=
    lift (Documents_remove (get document "_id"));;;
    ret RUndefined;
|}.

(** The object literal { title, body, stderr, createdAt } of the callbacks. *)
Definition output_literal (title : value) (body stderr : string) (createdAt : Z) : object :=
  {[ "title" := title; "body" := Str body; "stderr" := Str stderr;
     "createdAt" := Date createdAt ]}.

(** The callback of docker.hli: (err, stdout, stderr) => { ... } with
    [document] captured from the method.  The upsert selects by output._id,
    read from the output literal; the Fiber only moves the write onto the
    server's execution context. *)
Definition HLIDocker_callback (document : object) : Callback :=
  λ err stdout stderr env,
    match err with
    | Some e => console_error ("exec error: " +:+ Error_toString e)
    | None => ret ()
    end;;;
    let! stdoutText :=
      if truthy (Str stdout) then ret stdout
      else match err with
           | Some e => ret (JSON.stringify_error (Error_toString e))
           | None => throw (TypeError "Cannot read property 'toString' of null")
           end in
    let stderrText := stderr in
    let output := output_literal (get document "cmd") stdoutText stderrText (now env) in
    Documents_upsert (get output "_id") output env;;;
    ret ().

Definition HLIDocker : ValidatedMethod := {|
  name := "docker.hli";
  validate := validator [("_id", true); ("cmd", true)];
  run document env :=
    let! n := lift (Documents_find_title_count (get document "cmd")) in
    if negb (n =? 0)%nat then ret RNull
    else
      let cmd := "docker run --rm tanghaibao/tredparse " +:+ interpolate (get document "cmd") in
      exec cmd (1024 * 1000) (HLIDocker_callback document);;;
      ret RUndefined;
|}.

(** The callback of docker.public. *)
Definition PublicDocker_callback (document : object) : Callback :=
  λ err stdout stderr env,
    match err with
    | Some e => console_error ("exec error: " +:+ Error_toString e)
    | None => ret ()
    end;;;
    let! stdoutText :=
      if truthy (Str stdout) then ret stdout
      else match err with
           | Some e => ret (JSON.stringify_error (Error_toString e))
           | None => throw (TypeError "Cannot read property 'toString' of null")
           end in
    let stderrText := stderr in
    let output := output_literal (get document "cmd") stdoutText stderrText (now env) in
    Documents_upsert (get output "_id") output env;;;
    ret ().

Definition PublicDocker : ValidatedMethod := {|
  name := "docker.public";
  validate := validator [("_id", true); ("cmd", true)];
  run document env :=
    let! n := lift (Documents_find_title_count (get document "cmd")) in
    if negb (n =? 0)%nat then ret RNull
    else
      let cmd := "docker run --rm tanghaibao/tredparse-public " +:+ interpolate (get document "cmd") in
      exec cmd (1024 * 1000) (PublicDocker_callback document);;;
      ret RUndefined;
|}.

(** rateLimit({ methods, limit, timeRange }): one rule on the names of the
    listed methods. *)
Definition rateLimit (methods : list ValidatedMethod) (limit : nat) (timeRange : Z) : RateLimit.Rule :=
  {| RateLimit.methods := name <$> methods;
     RateLimit.limit := limit;
     RateLimit.timeRange := timeRange |}.

Definition rule : RateLimit.Rule :=
  rateLimit [upsertDocument; removeDocument] 5 1000.

(** ** Method Gateway *)

Inductive MeteorError :=
  | RateLimitExceeded
  | ValidationError
  | MethodNotFound
  | InternalError (e : exn).

Inductive Response :=
  | Result (r : result)
  | Found (d : option object)
  | Failure (e : MeteorError).

Definition methods : list ValidatedMethod :=
  [upsertDocument; removeDocument; HLIDocker; PublicDocker].

Definition find_method (methodName : string) : option ValidatedMethod :=
  List.find (λ m, bool_decide (name m = methodName)) methods.

(** Meteor.call(methodName, args) from the connection of [env], as the
    framework serves it: the rate limiter first (a refused call reaches
    neither the validator nor the method), then the validator of the
    ValidatedMethod, then its run. *)
Definition Meteor_call (env : Env) (methodName : string) (args : object) (s : State)
  : Response * State :=
  let (ok, l) := RateLimit.allow rule methodName (connection env) (now env) (limiter s) in
  let s := set_limiter l s in
  if ok then
    match find_method methodName with
    | None => (Failure MethodNotFound, s)
    | Some m =>
        if validate m args then
          match run m args env s with
          | (Normal r, s') => (Result r, s')
          | (Throw e, s') => (Failure (InternalError e), s')
          end
        else (Failure ValidationError, s)
    end
  else (Failure RateLimitExceeded, s).

(** The read-only lookup of the client: subscribe to 'documents.view' and
    Documents.findOne({ _id }). *)
Definition Meteor_view (env : Env) (_id : string) (s : State) : Response * State :=
  let (ok, l) := RateLimit.allow rule "documents.view" (connection env) (now env) (limiter s) in
  let s := set_limiter l s in
  if ok then (Found (Collection.findOne _id (Documents (server s))), s)
  else (Failure RateLimitExceeded, s).

(** What exec delivers to the callback of a process. *)
Record ExecResult := { err : option Error; stdout : string; stderr : string }.

(** Delivery of the result of process number [i]: its callback runs on the
    Documents and the console. *)
Definition exec_done (env : Env) (i : nat) (r : ExecResult) (s : State)
  : completion unit * State :=
  match processes s !! i with
  | Some p => lift (callback p (err r) (stdout r) (stderr r) env) s
  | None => (Normal (), s)
  end.

(** A method call followed at once by the completion of the process it
    started, if it started one: [env] is the environment of the call, [env']
    that of the completion. *)
Definition call_to_completion (env : Env) (methodName : string) (args : object)
    (env' : Env) (r : ExecResult) (s : State) : State :=
  let (_, s1) := Meteor_call env methodName args s in
  let i := length (processes s) in
  if bool_decide (i < length (processes s1))%nat then (exec_done env' i r s1).2 else s1.

(** The exec result honours the maxBuffer option it was given. *)
Definition within_maxBuffer (maxBuffer : Z) (r : ExecResult) : Prop :=
  byteLength (stdout r) ≤ maxBuffer ∧ byteLength (stderr r) ≤ maxBuffer.

(** ** child_process.exec: from the child to the callback *)

Inductive Stream :=
  | ToStdout
  | ToStderr.

#[global] Instance Stream_eq_dec : EqDecision Stream.
Proof. solve_decision. Defined.

(** What a child process does: the chunks of data it writes to its two
    streams, in the order in which exec receives them, and how it ends,
    [None] for exit code 0 and otherwise the error exec reports for it
    (Command failed: ..., or the error of a spawn that failed). *)
Record Child := { written : list (Stream * string); ended : option Error }.

(** All the data among [chunks] that was written to [stream]. *)
Fixpoint written_to (stream : Stream) (chunks : list (Stream * string)) : string :=
  match chunks with
  | [] => ""
  | (st, data) :: rest =>
      if bool_decide (st = stream) then data +:+ written_to stream rest
      else written_to stream rest
  end.

(** The first [n] bytes of a string. *)
Fixpoint truncate (n : Z) (s : string) : string :=
  match s with
  | EmptyString => EmptyString
  | String c r => if 0 <? n then String c (truncate (n - 1) r) else EmptyString
  end.

(** The error Node's exec reports when a stream exceeds maxBuffer. *)
Definition maxBuffer_exceeded (stream : string) : Error :=
  {| errorName := "RangeError [ERR_CHILD_PROCESS_STDIO_MAXBUFFER]";
     errorMessage := stream +:+ " maxBuffer length exceeded" |}.

(** Modelled from the spec: the process-execution primitive is external
    (Node's child_process.exec) and not part of the sources.  Stdout and
    stderr are collected, each truncated/bounded to a fixed maximum size,
    the option maxBuffer, which Node documents as the largest amount of data
    in bytes allowed on stdout or stderr; if exceeded, the child process is
    terminated and any output is truncated.  One chunk of data: it is
    appended to what was collected from its stream, and the chunk that takes
    a stream above maxBuffer is cut at maxBuffer and ends the collection.
    [r] holds what was collected so far and the maxBuffer error, if one was
    raised. *)
Definition onData (maxBuffer : Z) (r : ExecResult) (chunk : Stream * string) : ExecResult :=
  match err r with
  | Some _ => r
  | None =>
      match chunk with
      | (ToStdout, data) =>
          if maxBuffer <? byteLength (stdout r) + byteLength data then
            {| err := Some (maxBuffer_exceeded "stdout");
               stdout := stdout r +:+ truncate (maxBuffer - byteLength (stdout r)) data;
               stderr := stderr r |}
          else {| err := None; stdout := stdout r +:+ data; stderr := stderr r |}
      | (ToStderr, data) =>
          if maxBuffer <? byteLength (stderr r) + byteLength data then
            {| err := Some (maxBuffer_exceeded "stderr");
               stdout := stdout r;
               stderr := stderr r +:+ truncate (maxBuffer - byteLength (stderr r)) data |}
          else {| err := None; stdout := stdout r; stderr := stderr r +:+ data |}
      end
  end.

(** Modelled from the spec: exec(fullCommandLine, {maxOutputBytes}) ->
    (stdout, stderr, err), what exec hands to the callback when the child
    has ended: the collected output, and as err the maxBuffer error if one
    was raised, else the way the child ended. *)
Definition collect (maxBuffer : Z) (c : Child) : ExecResult :=
  let r := foldl (onData maxBuffer) {| err := None; stdout := ""; stderr := "" |} (written c) in
  {| err := match err r with Some e => Some e | None => ended c end;
     stdout := stdout r;
     stderr := stderr r |}.

(** The child of process number [i] has ended: exec collects its output
    under the maxBuffer the process was started with and calls back. *)
Definition child_done (env : Env) (i : nat) (c : Child) (s : State)
  : completion unit * State :=
  match processes s !! i with
  | Some p => exec_done env i (collect (maxBuffer p) c) s
  | None => (Normal (), s)
  end.

(** ** The shared dispatcher *)

(** The two dispatch methods written once, as the specification asks
    (share the Dispatcher implementation, parameterized by runtime prefix):
    the dedup check, the spawn under [prefix], and the completion callback
    that captures the output and persists the Record. *)
Definition Dispatcher_callback (document : object) : Callback :=
  λ err stdout stderr env,
    match err with
    | Some e => console_error ("exec error: " +:+ Error_toString e)
    | None => ret ()
    end;;;
    let! stdoutText :=
      if truthy (Str stdout) then ret stdout
      else match err with
           | Some e => ret (JSON.stringify_error (Error_toString e))
           | None => throw (TypeError "Cannot read property 'toString' of null")
           end in
    Documents_upsert Undefined
      (output_literal (get document "cmd") stdoutText stderr (now env)) env;;;
    ret ().

Definition Dispatcher_run (prefix : string) (document : object) (env : Env) : Js State result :=
  let! n := lift (Documents_find_title_count (get document "cmd")) in
  if negb (n =? 0)%nat then ret RNull
  else
    exec (prefix +:+ " " +:+ interpolate (get document "cmd")) 1024000
         (Dispatcher_callback document);;;
    ret RUndefined.

Definition hli_prefix : string := "docker run --rm tanghaibao/tredparse".
Definition public_prefix : string := "docker run --rm tanghaibao/tredparse-public".

(** ** Auxiliary notions and example data *)

(** The process a dispatch starts. *)
Definition spawned (prefix : string) (document : object) : Process :=
  {| command := prefix +:+ " " +:+ interpolate (get document "cmd");
     maxBuffer := 1024000;
     callback := Dispatcher_callback document |}.

(** The run of method [m] on [document] in state [s] started process [p]. *)
Definition started_by (m : ValidatedMethod) (document : object) (env : Env) (s : State)
    (p : Process) : Prop :=
  processes (run m document env s).2 = processes s ++ [p].

(** The lines the callback writes to the console. *)
Definition logged (err : option Error) : list string :=
  match err with
  | Some e => ["exec error: " +:+ Error_toString e]
  | None => []
  end.

(** The body the callback stores when it completes. *)
Definition stored_body (err : option Error) (stdout : string) : string :=
  if truthy (Str stdout) then stdout
  else match err with
       | Some e => JSON.stringify_error (Error_toString e)
       | None => ""
       end.

(** The name under which each dispatch method is registered and the runtime
    prefix it runs the command under. *)
Inductive dispatch_method : string → string → Prop :=
  | dispatch_hli : dispatch_method "docker.hli" hli_prefix
  | dispatch_public : dispatch_method "docker.public" public_prefix.

Definition dispatch_schema : SimpleSchema := [("_id", true); ("cmd", true)].

(** The schema from which the validate of each method is built. *)
Inductive method_schema : ValidatedMethod → SimpleSchema → Prop :=
  | schema_upsert :
      method_schema upsertDocument
        [("_id", true); ("title", true); ("body", true); ("stderr", true)]
  | schema_remove : method_schema removeDocument [("_id", false)]
  | schema_hli : method_schema HLIDocker dispatch_schema
  | schema_public : method_schema PublicDocker dispatch_schema.

(** The argument breaks the schema: it has a property that is no key of the
    schema, or a property set to something that is no string, or it leaves a
    key that is not optional unset. *)
Definition breaks (schema : SimpleSchema) (args : object) : Prop :=
  (∃ k v, args !! k = Some v ∧ k ∉ schema.*1) ∨
  (∃ k v, args !! k = Some v ∧ is_set v = true ∧ is_Str v = false) ∨
  (∃ k, (k, false) ∈ schema ∧ is_set (get args k) = false).

Definition env0 : Env := {| now := 0; connection := "conn"; randomId := "id1" |}.
Definition env1 : Env := {| now := 40; connection := "conn"; randomId := "id2" |}.

Definition echo_hi : object := {[ "_id" := Str "abc"; "cmd" := Str "echo hi" ]}.

Definition hi_newline : string := "hi" +:+ String (ascii_of_nat 10) "".

Definition hi_result : ExecResult := {| err := None; stdout := hi_newline; stderr := "" |}.

Definition after_echo : State :=
  call_to_completion env0 "docker.hli" echo_hi env1 hi_result init.

Definition failed_result : ExecResult :=
  {| err := Some {| errorName := "Error"; errorMessage := "Command failed: docker" |};
     stdout := ""; stderr := "Unable to find image" |}.

Definition silent_result : ExecResult := {| err := None; stdout := ""; stderr := "" |}.

(** An output of 1,024,000 bytes: as much as maxBuffer lets through. *)
Definition full_buffer : string := Pos.iter (String "x"%char) "" 1024000.

Definition full_result : ExecResult := {| err := None; stdout := full_buffer; stderr := "" |}.

(** A failure whose message alone fills the buffer. *)
Definition long_failure : ExecResult :=
  {| err := Some {| errorName := "Error"; errorMessage := full_buffer |};
     stdout := ""; stderr := "" |}.

(** A child that fills stderr up to maxBuffer, writes nothing to stdout and
    fails: exec reports Command failed: followed by the command line, a
    line feed and what was collected from stderr. *)
Definition noisy_failure (cmd : string) : Child :=
  {| written := [(ToStderr, full_buffer)];
     ended := Some {| errorName := "Error";
                      errorMessage :=
                        "Command failed: " +:+ cmd +:+ String (ascii_of_nat 10) full_buffer |} |}.

Definition echo_process : Process := spawned hli_prefix echo_hi.

Definition echo_started : State := (Meteor_call env0 "docker.hli" echo_hi init).2.

Definition public_started : State := (Meteor_call env0 "docker.public" echo_hi init).2.

Definition titled_x : object := {[ "_id" := Str "a"; "title" := Str "x" ]}.

(** A run of calls to one method, first to last. *)
Fixpoint Meteor_calls (n : string) (calls : list (Env * object)) (s : State)
  : list Response * State :=
  match calls with
  | [] => ([], s)
  | (env, args) :: rest =>
      let (r, s1) := Meteor_call env n args s in
      let (rs, s2) := Meteor_calls n rest s1 in
      (r :: rs, s2)
  end.

(** The bucket of method [n] and caller [c] was opened at [t0] and has
    counted [k] calls. *)
Definition in_window (n c : string) (t0 : Z) (k : nat) (s : State) : Prop :=
  limiter s !! (n, c) = Some {| RateLimit.windowStart := t0; RateLimit.calls := k |}.

Definition at_time (t : Z) : Env := {| now := t; connection := "conn"; randomId := "id1" |}.

(** Six dispatch calls from one connection at the same instant. *)
Definition burst_args (k : string) : object := {[ "cmd" := Str k ]}.

Definition after_five (n : string) : State :=
  foldl (λ s k, (Meteor_call env0 n (burst_args k) s).2) init ["a"; "b"; "c"; "d"; "e"].

(** One completed gateway operation: a call to the method named [op_method]
    and, if it started a process, the completion of that process. *)
Record Operation := {
  op_env : Env;
  op_method : string;
  op_args : object;
  op_completion_env : Env;
  op_result : ExecResult;
}.

Definition perform (s : State) (op : Operation) : State :=
  call_to_completion (op_env op) (op_method op) (op_args op)
    (op_completion_env op) (op_result op) s.

(** The state after a sequence of operations run one after the other. *)
Definition perform_all (ops : list Operation) (s : State) : State :=
  foldl perform s ops.

(** The Record has output: a non-empty body. *)
Definition has_output (d : object) : Prop :=
  ∃ b, d !! "body" = Some (Str b) ∧ b ≠ "".

(** Each command string is the title of at most one Record. *)
Definition unique_titles (c : gmap string object) : Prop :=
  ∀ cmd i j di dj,
    c !! i = Some di → c !! j = Some dj →
    di !! "title" = Some (Str cmd) →
    dj !! "title" = Some (Str cmd) →
    i = j.

(** The operation is no documents.upsert that sets a title. *)
Definition sets_no_title (op : Operation) : Prop :=
  op_method op = "documents.upsert" → op_args op !! "title" = None.

Definition dispatch_op (method cmd : string) (r : ExecResult) : Operation :=
  {| op_env := env0;
     op_method := method;
     op_args := {[ "_id" := Str "id2"; "cmd" := Str cmd ]};
     op_completion_env := env1;
     op_result := r |}.

Definition remove_op (_id : string) : Operation :=
  {| op_env := env0;
     op_method := "documents.remove";
     op_args := {[ "_id" := Str _id ]};
     op_completion_env := env1;
     op_result := hi_result |}.

(** An upsert that reserves an id without a title. *)
Definition reserve_op (_id : string) : Operation :=
  {| op_env := env0;
     op_method := "documents.upsert";
     op_args := {[ "_id" := Str _id ]};
     op_completion_env := env1;
     op_result := hi_result |}.

(** Reserve an id, dispatch, dispatch again (a dedup hit), remove the
    Record, dispatch once more. *)
Definition scenario_ops : list Operation :=
  [reserve_op "abc";
   dispatch_op "docker.hli" "echo hi" hi_result;
   dispatch_op "docker.public" "echo hi" failed_result;
   remove_op "id2";
   dispatch_op "docker.public" "echo hi" failed_result].

Definition upsert_op (_id title body : string) : Operation :=
  {| op_env := env0;
     op_method := "documents.upsert";
     op_args := {[ "_id" := Str _id; "title" := Str title; "body" := Str body ]};
     op_completion_env := env1;
     op_result := hi_result |}.

(** ** The submission form (FormInput) *)
Module FormInput.

Definition Default_httpBAM : string := "".
Definition Default_s3BAM : string :=
  "s3://hli-processed/processed/341087/isaac_align/164648328_S1.bam".
Definition Default_tred : string := "HD".

(** this.setState(partial): the listed properties are replaced, the others
    kept. *)
Definition setState (partial state : object) : object := partial ∪ state.

Definition getInitialState : object :=
  {[ "currentId" := Str ""; "bam" := Str Default_s3BAM; "tred" := Str Default_tred ]}.

(** handleChange(e), with [target_value] for e.target.value. *)
Definition handleChange (target_value : string) (state : object) : object :=
  setState {[ "value" := Str target_value ]} state.

(** onClick of the HTTP link. *)
Definition clickHTTP (state : object) : object :=
  setState {[ "bam" := Str Default_httpBAM ]} state.

(** onClick of the S3 link. *)
Definition clickS3 (state : object) : object :=
  setState {[ "bam" := Str Default_s3BAM ]} state.

(** A Meteor.call(name, args, callback) issued by the component; the
    callback receives the error of the call, if any. *)
Record MethodCall := {
  call_name : string;
  call_args : object;
  call_callback : option MeteorError → object → object;
}.

(** handleSubmit(e), with [currentId] for the value of Random.id(). *)
Definition handleSubmit (currentId : string) : MethodCall :=
  {| call_name := "shell";
     call_args := {[ "_id" := Str currentId; "cmd" := Str "sleep 1 && pwd" ]};
     call_callback := λ err state, setState {[ "currentId" := Str currentId ]} state |}.

(** getMeteorData(): data.post, with [ready] for handle.ready() of the
    subscription and [c] for the Documents the client holds. *)
Definition getMeteorData (ready : bool) (state : object) (c : gmap string object)
  : option object :=
  if ready then
    match get state "currentId" with
    | Str i => Collection.findOne i c
    | _ => None
    end
  else None.

(** What render() puts below the Submit button. *)
Inductive View :=
  | Content (currentId title body : value)
  | Loading
  | Blank.

(** getContent() *)
Definition getContent (state post : object) : View :=
  Content (get state "currentId") (get post "title") (get post "body").

(** The last expression of render(): this.data.post ? this.getContent()
    : (this.state.currentId ? <Loading /> : ''). *)
Definition render (state : object) (post : option object) : View :=
  match post with
  | Some p => getContent state p
  | None => if truthy (get state "currentId") then Loading else Blank
  end.

(** What happens to the component: typing into the BAM field, a click on
    one of the two links, the answer to a submitted call. *)
Inductive Event :=
  | Change (target_value : string)
  | ClickHTTP
  | ClickS3
  | Answered (currentId : string) (err : option MeteorError).

Definition step (state : object) (e : Event) : object :=
  match e with
  | Change v => handleChange v state
  | ClickHTTP => clickHTTP state
  | ClickS3 => clickS3 state
  | Answered i err => call_callback (handleSubmit i) err state
  end.

(** The state of the component after a sequence of events. *)
Definition after (events : list Event) : object := foldl step getInitialState events.

End FormInput.

(** What holds of the state of the form whatever has happened to it so far,
    [all] being the events that may have happened. *)
Definition form_invariant (all : list FormInput.Event) (state : object) : Prop :=
  (state !! "bam" = Some (Str FormInput.Default_s3BAM) ∨
   state !! "bam" = Some (Str FormInput.Default_httpBAM)) ∧
  state !! "tred" = Some (Str "HD") ∧
  (state !! "value" = None ∨
   ∃ v, FormInput.Change v ∈ all ∧ state !! "value" = Some (Str v)) ∧
  (state !! "currentId" = Some (Str "") ∨
   ∃ i err, FormInput.Answered i err ∈ all ∧ state !! "currentId" = Some (Str i)).

(** ** Runs of the server *)

(** What happens to the server: a method call arrives, or exec delivers the
    result of a process. *)
Inductive ServerEvent :=
  | Called (env : Env) (methodName : string) (args : object)
  | Completed (env : Env) (i : nat) (r : ExecResult).

Definition serve (s : State) (e : ServerEvent) : State :=
  match e with
  | Called env methodName args => (Meteor_call env methodName args s).2
  | Completed env i r => (exec_done env i r s).2
  end.

(** The state of the server after a sequence of events, from [init]. *)
Definition served (events : list ServerEvent) : State := foldl serve init events.

(** Every process was started with maxBuffer 1024 * 1000 on a command line
    that begins with the docker run prefix. *)
Definition only_docker_runs (s : State) : Prop :=
  ∀ p, p ∈ processes s →
       maxBuffer p = 1024 * 1000 ∧
       ∃ rest, command p = "docker run --rm tanghaibao/tredparse" +:+ rest.

(** ** Reading an escaped string back *)

(** The value of a lower-case hexadecimal digit. *)
Definition hex_value (c : ascii) : option nat :=
  let n := nat_of_ascii c in
  if (48 <=? n)%nat && (n <=? 57)%nat then Some (n - 48)%nat
  else if (97 <=? n)%nat && (n <=? 102)%nat then Some (n - 87)%nat
  else None.

(** The inverse of QuoteJSONString on the inside of a JSON string: escapes
    are read back, and a raw quote or an unknown escape is refused. *)
Fixpoint unescape (s : string) : option string :=
  match s with
  | EmptyString => Some EmptyString
  | String c r =>
      if (nat_of_ascii c =? 92)%nat then
        match r with
        | String e r' =>
            let n := nat_of_ascii e in
            if (n =? 34)%nat then String JSON.quote <$> unescape r'
            else if (n =? 92)%nat then String JSON.backslash <$> unescape r'
            else if (n =? 98)%nat then String (ascii_of_nat 8) <$> unescape r'
            else if (n =? 102)%nat then String (ascii_of_nat 12) <$> unescape r'
            else if (n =? 110)%nat then String (ascii_of_nat 10) <$> unescape r'
            else if (n =? 114)%nat then String (ascii_of_nat 13) <$> unescape r'
            else if (n =? 116)%nat then String (ascii_of_nat 9) <$> unescape r'
            else if (n =? 117)%nat then
              match r' with
              | String z1 (String z2 (String h (String l r''))) =>
                  match hex_value z1, hex_value z2, hex_value h, hex_value l with
                  | Some 0%nat, Some 0%nat, Some a, Some b =>
                      String (ascii_of_nat (16 * a + b)) <$> unescape r''
                  | _, _, _, _ => None
                  end
              | _ => None
              end
            else None
        | EmptyString => None
        end
      else if (nat_of_ascii c =? 34)%nat then None
      else String c <$> unescape r
  end.

(** The characters QuoteJSONString leaves as they are: no quote, no
    backslash, no control character. *)
Definition plain (c : ascii) : bool :=
  let n := nat_of_ascii c in
  (32 <=? n)%nat && negb (n =? 34)%nat && negb (n =? 92)%nat.

Fixpoint all_plain (s : string) : bool :=
  match s with
  | EmptyString => true
  | String c r => plain c && all_plain r
  end.

(** ** Further example data *)

Definition env2 : Env := {| now := 80; connection := "conn"; randomId := "id3" |}.

Definition env3 : Env := {| now := 120; connection := "conn"; randomId := "id4" |}.

Definition no_cmd : object := {[ "_id" := Str "abc" ]}.

Definition with_cwd : object := {[ "cmd" := Str "ls"; "cwd" := Str "/" ]}.

(** A child that prints hi, complains on stderr and exits with code 0. *)
Definition hi_child : Child :=
  {| written := [(ToStdout, "h"); (ToStderr, "warning"); (ToStdout, "i")]; ended := None |}.

Definition untitled : object := {[ "body" := Str "text" ]}.

(** * Properties *)

(** ** Basic facts *)

Lemma set_limiter_id s : set_limiter (limiter s) s = s.
Proof. by destruct s. Qed.

Lemma set_server_id s : set_server (server s) s = s.
Proof. by destruct s. Qed.

Lemma byteLength_nonneg s : 0 ≤ byteLength s.
Proof. induction s as [|c r IH]; simpl; lia. Qed.

Lemma byteLength_pos_nonempty s : 0 < byteLength s → s ≠ "".
Proof. intros H ->. simpl in H. lia. Qed.

Lemma byteLength_app s t : byteLength (s +:+ t) = byteLength s + byteLength t.
Proof. induction s as [|c r IH]; [reflexivity|]. simpl. rewrite IH. lia. Qed.

Lemma append_empty_r (a : string) : a +:+ "" = a.
Proof.
  induction a as [|x a IH]; [reflexivity|].
  change (String x (a +:+ "") = String x a). by rewrite IH.
Qed.

Lemma unescape_escape_char c t :
  unescape (JSON.escape_char c +:+ t) = String c <$> unescape t.
Proof. destruct c as [[] [] [] [] [] [] [] []]; reflexivity. Qed.

Lemma append_assoc (a b c : string) : (a +:+ b) +:+ c = a +:+ (b +:+ c).
Proof.
  induction a as [|x a IH]; [reflexivity|].
  change (String x ((a +:+ b) +:+ c) = String x (a +:+ (b +:+ c))). by rewrite IH.
Qed.

Lemma unescape_escape s : unescape (JSON.escape s) = Some s.
Proof.
  induction s as [|c r IH]; [reflexivity|].
  simpl. rewrite unescape_escape_char, IH. reflexivity.
Qed.

Lemma append_inv_tail (a b t : string) : a +:+ t = b +:+ t → a = b.
Proof.
  revert b. induction a as [|x a IH]; intros [|y b] H.
  - reflexivity.
  - apply (f_equal byteLength) in H. rewrite !byteLength_app in H. cbn [byteLength] in H.
    pose proof (byteLength_nonneg b). lia.
  - apply (f_equal byteLength) in H. rewrite !byteLength_app in H. cbn [byteLength] in H.
    pose proof (byteLength_nonneg a). lia.
  - change (String x (a +:+ t) = String y (b +:+ t)) in H.
    injection H as -> H. f_equal. by apply IH.
Qed.

Lemma truthy_Str s : truthy (Str s) = true ↔ s ≠ "".
Proof.
  unfold truthy. rewrite negb_true_iff, bool_decide_eq_false. done.
Qed.

Lemma truthy_Str_false s : truthy (Str s) = false ↔ s = "".
Proof.
  unfold truthy. rewrite negb_false_iff, bool_decide_eq_true. done.
Qed.

(** The object literal of the callbacks has no _id property. *)
Lemma output_literal_no_id title body stderr createdAt :
  get (output_literal title body stderr createdAt) "_id" = Undefined.
Proof. reflexivity. Qed.

Lemma field_is_Str k c d :
  Collection.field_is k (Str c) d = true ↔ d !! k = Some (Str c).
Proof. unfold Collection.field_is. simpl. apply bool_decide_eq_true. Qed.

Lemma field_is_ext k v w d :
  Collection.stored w = Collection.stored v →
  Collection.field_is k w d = Collection.field_is k v d.
Proof. unfold Collection.field_is. by intros ->. Qed.

Lemma count_find_zero k v (c : gmap string object) :
  Collection.count (Collection.find k v c) = 0%nat ↔
  ∀ i d, c !! i = Some d → Collection.field_is k v d = false.
Proof.
  unfold Collection.count, Collection.find.
  rewrite map_size_empty_iff, map_empty_filter. unfold map_Forall. simpl.
  split; intros H i d Hi; specialize (H i d Hi).
  - by apply not_true_is_false.
  - by rewrite H.
Qed.

Lemma count_find_pos k v (c : gmap string object) i d :
  c !! i = Some d → Collection.field_is k v d = true →
  Collection.count (Collection.find k v c) ≠ 0%nat.
Proof.
  intros Hi Hd Hz. rewrite count_find_zero in Hz.
  specialize (Hz i d Hi). congruence.
Qed.

(** ** The two dispatch methods are the shared dispatcher *)

Lemma HLIDocker_callback_shared document :
  HLIDocker_callback document = Dispatcher_callback document.
Proof. reflexivity. Qed.

Lemma PublicDocker_callback_shared document :
  PublicDocker_callback document = Dispatcher_callback document.
Proof. reflexivity. Qed.

Lemma HLIDocker_run_shared : run HLIDocker = Dispatcher_run hli_prefix.
Proof. reflexivity. Qed.

Lemma PublicDocker_run_shared : run PublicDocker = Dispatcher_run public_prefix.
Proof. reflexivity. Qed.

Lemma Dispatcher_run_hit prefix document env s :
  Collection.count (Collection.find "title" (get document "cmd") (Documents (server s))) ≠ 0%nat →
  Dispatcher_run prefix document env s = (Normal RNull, s).
Proof.
  intros Hn. unfold Dispatcher_run, bind, lift, Documents_find_title_count. simpl.
  rewrite set_server_id.
  destruct (Nat.eqb_spec (Collection.count
    (Collection.find "title" (get document "cmd") (Documents (server s)))) 0); [done|].
  reflexivity.
Qed.

Lemma Dispatcher_run_miss prefix document env s :
  Collection.count (Collection.find "title" (get document "cmd") (Documents (server s))) = 0%nat →
  Dispatcher_run prefix document env s =
    (Normal RUndefined,
     {| server := server s;
        processes := processes s ++ [spawned prefix document];
        limiter := limiter s |}).
Proof.
  intros Hz. unfold Dispatcher_run, bind, lift, Documents_find_title_count. simpl.
  rewrite set_server_id, Hz. reflexivity.
Qed.

Lemma Dispatcher_callback_persists document err stdout stderr env sv :
  stdout ≠ "" ∨ err ≠ None →
  Dispatcher_callback document err stdout stderr env sv =
    (Normal (),
     {| Documents :=
          Collection.upsert Undefined
            (output_literal (get document "cmd") (stored_body err stdout) stderr (now env))
            (randomId env) (Documents sv);
        console := console sv ++ logged err |}).
Proof.
  intros Hpre. unfold Dispatcher_callback, stored_body, bind.
  destruct (truthy (Str stdout)) eqn:Ht.
  - destruct err as [e|]; simpl; [done|]. by rewrite app_nil_r.
  - apply truthy_Str_false in Ht. destruct err as [e|]; simpl; [done|].
    destruct Hpre; done.
Qed.

Lemma Dispatcher_callback_throws document stderr env sv :
  Dispatcher_callback document None "" stderr env sv =
    (Throw (TypeError "Cannot read property 'toString' of null"), sv).
Proof. reflexivity. Qed.

Lemma upsert_fresh_lookup fields fresh (c : gmap string object) :
  Collection.upsert Undefined fields fresh c !! fresh =
    Some (<["_id" := Str fresh]> (Collection.set_fields fields (default ∅ (c !! fresh)))).
Proof. unfold Collection.upsert. simpl. apply lookup_insert_eq. Qed.

Lemma upsert_fresh_lookup_ne fields fresh (c : gmap string object) i :
  i ≠ fresh →
  Collection.upsert Undefined fields fresh c !! i = c !! i.
Proof. intros Hne. unfold Collection.upsert. simpl. by rewrite lookup_insert_ne. Qed.

(** The fields of a Record after the output literal has been set on it. *)
Lemma output_record_fields title body stderr createdAt (old : object) k :
  let d := <["_id" := Str k]>
             (Collection.set_fields (output_literal title body stderr createdAt) old) in
  d !! "title" = Some (Collection.stored title) ∧
  d !! "body" = Some (Str body) ∧
  d !! "stderr" = Some (Str stderr) ∧
  d !! "createdAt" = Some (Date createdAt).
Proof.
  unfold Collection.set_fields, output_literal. simpl.
  repeat split.
  all: rewrite lookup_insert_ne by done.
  all: erewrite lookup_union_Some_l; [reflexivity|].
  all: rewrite lookup_fmap; reflexivity.
Qed.

(** ** The gateway on the dispatch methods *)

Lemma rule_tracks n :
  n ∈ RateLimit.methods rule ↔ n = "documents.upsert" ∨ n = "documents.remove".
Proof.
  change (RateLimit.methods rule) with ["documents.upsert"; "documents.remove"].
  rewrite !elem_of_cons, elem_of_nil. tauto.
Qed.

Lemma allow_untracked n c t l :
  n ≠ "documents.upsert" → n ≠ "documents.remove" →
  RateLimit.allow rule n c t l = (true, l).
Proof.
  intros H1 H2. unfold RateLimit.allow.
  rewrite bool_decide_eq_false_2; [done|].
  rewrite rule_tracks. tauto.
Qed.

Lemma Meteor_call_dispatch n prefix env args s :
  dispatch_method n prefix →
  Meteor_call env n args s =
    if validator dispatch_schema args then
      match Dispatcher_run prefix args env s with
      | (Normal r, s') => (Result r, s')
      | (Throw e, s') => (Failure (InternalError e), s')
      end
    else (Failure ValidationError, s).
Proof.
  intros [|]; unfold Meteor_call.
  all: rewrite allow_untracked by done; rewrite set_limiter_id; reflexivity.
Qed.

Lemma call_to_completion_invalid n prefix env args env' r s :
  dispatch_method n prefix → validator dispatch_schema args = false →
  call_to_completion env n args env' r s = s.
Proof.
  intros Hn Hv. unfold call_to_completion.
  rewrite (Meteor_call_dispatch _ _ _ _ _ Hn), Hv.
  rewrite bool_decide_eq_false_2; [done|lia].
Qed.

Lemma call_to_completion_hit n prefix env args env' r s :
  dispatch_method n prefix →
  Collection.count (Collection.find "title" (get args "cmd") (Documents (server s))) ≠ 0%nat →
  call_to_completion env n args env' r s = s.
Proof.
  intros Hn Hc. unfold call_to_completion.
  rewrite (Meteor_call_dispatch _ _ _ _ _ Hn).
  destruct (validator dispatch_schema args).
  - rewrite Dispatcher_run_hit by done.
    rewrite bool_decide_eq_false_2; [done|lia].
  - rewrite bool_decide_eq_false_2; [done|lia].
Qed.

Lemma call_to_completion_miss n prefix env args env' r s :
  dispatch_method n prefix → validator dispatch_schema args = true →
  Collection.count (Collection.find "title" (get args "cmd") (Documents (server s))) = 0%nat →
  call_to_completion env n args env' r s =
    {| server := (Dispatcher_callback args (err r) (stdout r) (stderr r) env' (server s)).2;
       processes := processes s ++ [spawned prefix args];
       limiter := limiter s |}.
Proof.
  intros Hn Hv Hc. unfold call_to_completion.
  rewrite (Meteor_call_dispatch _ _ _ _ _ Hn), Hv.
  rewrite Dispatcher_run_miss by done.
  cbn [processes]. rewrite bool_decide_eq_true_2 by (rewrite length_app; simpl; lia).
  unfold exec_done. cbn [processes].
  rewrite list_lookup_middle by done.
  unfold lift. cbn [server callback spawned].
  destruct (Dispatcher_callback args (err r) (stdout r) (stderr r) env' (server s)) as [c sv].
  reflexivity.
Qed.

Lemma Meteor_call_hit n prefix env args s :
  dispatch_method n prefix → validator dispatch_schema args = true →
  Collection.count (Collection.find "title" (get args "cmd") (Documents (server s))) ≠ 0%nat →
  Meteor_call env n args s = (Result RNull, s).
Proof.
  intros Hn Hv Hc.
  rewrite (Meteor_call_dispatch _ _ _ _ _ Hn), Hv.
  by rewrite Dispatcher_run_hit.
Qed.

Lemma Meteor_call_miss n prefix env args s :
  dispatch_method n prefix → validator dispatch_schema args = true →
  Collection.count (Collection.find "title" (get args "cmd") (Documents (server s))) = 0%nat →
  Meteor_call env n args s =
    (Result RUndefined,
     {| server := server s;
        processes := processes s ++ [spawned prefix args];
        limiter := limiter s |}).
Proof.
  intros Hn Hv Hc.
  rewrite (Meteor_call_dispatch _ _ _ _ _ Hn), Hv.
  by rewrite Dispatcher_run_miss.
Qed.

Lemma stringify_error_nonempty s : JSON.stringify_error s ≠ "".
Proof. unfold JSON.stringify_error. simpl. discriminate. Qed.

(** ** A worked scenario: dispatching "echo hi" on the empty store *)

(** ** Dedup hit *)

(** C1. In a store that holds a Record whose title equals the submitted cmd
    string, the run of docker.hli and of docker.public returns null at once
    and leaves the whole state as it was: no process is handed to exec and
    the Documents are unchanged; so does the call through the gateway when
    the arguments pass validation. *)
Theorem dedup_hit_returns_unchanged env document cmd s i d :
  document !! "cmd" = Some (Str cmd) →
  Documents (server s) !! i = Some d →
  d !! "title" = Some (Str cmd) →
  run HLIDocker document env s = (Normal RNull, s) ∧
  run PublicDocker document env s = (Normal RNull, s) ∧
  (validate HLIDocker document = true →
   Meteor_call env "docker.hli" document s = (Result RNull, s)) ∧
  (validate PublicDocker document = true →
   Meteor_call env "docker.public" document s = (Result RNull, s)).
Proof.
  intros Hcmd Hi Hd.
  assert (Hc : Collection.count
            (Collection.find "title" (get document "cmd") (Documents (server s))) ≠ 0%nat).
  { apply (count_find_pos _ _ _ i d Hi). unfold get. rewrite Hcmd. simpl.
    by apply field_is_Str. }
  rewrite HLIDocker_run_shared, PublicDocker_run_shared.
  repeat split.
  - by apply Dispatcher_run_hit.
  - by apply Dispatcher_run_hit.
  - intros Hv. by apply (Meteor_call_hit _ _ _ _ _ dispatch_hli).
  - intros Hv. by apply (Meteor_call_hit _ _ _ _ _ dispatch_public).
Qed.

Lemma dedup_hit_returns_unchanged_witness :
  run HLIDocker echo_hi env1 after_echo = (Normal RNull, after_echo) ∧
  run PublicDocker echo_hi env1 after_echo = (Normal RNull, after_echo) ∧
  (validate HLIDocker echo_hi = true →
   Meteor_call env1 "docker.hli" echo_hi after_echo = (Result RNull, after_echo)) ∧
  (validate PublicDocker echo_hi = true →
   Meteor_call env1 "docker.public" echo_hi after_echo = (Result RNull, after_echo)).
Proof.
  apply (dedup_hit_returns_unchanged env1 echo_hi "echo hi" after_echo "id2"
           (<["_id" := Str "id2"]> (output_literal (Str "echo hi") hi_newline "" 40))).
  - vm_compute. reflexivity.
  - vm_compute. reflexivity.
  - vm_compute. reflexivity.
Defined.

(** ** Completion: what is persisted *)

(** The Record a dispatch that misses the dedup check leaves under the id
    drawn at completion, when its callback completes. *)
Lemma completed_record n prefix env document env' r s :
  dispatch_method n prefix →
  validator dispatch_schema document = true →
  Collection.count (Collection.find "title" (get document "cmd") (Documents (server s))) = 0%nat →
  stdout r ≠ "" ∨ err r ≠ None →
  Documents (server (call_to_completion env n document env' r s)) !! randomId env' =
    Some (<["_id" := Str (randomId env')]>
            (Collection.set_fields
               (output_literal (get document "cmd") (stored_body (err r) (stdout r))
                  (stderr r) (now env'))
               (default ∅ (Documents (server s) !! randomId env')))).
Proof.
  intros Hn Hv Hc Hp.
  rewrite (call_to_completion_miss _ _ _ _ _ _ _ Hn Hv Hc). cbn [server].
  rewrite Dispatcher_callback_persists by done. cbn [snd Documents].
  apply upsert_fresh_lookup.
Qed.

Lemma stored_body_stdout err stdout : stdout ≠ "" → stored_body err stdout = stdout.
Proof. intros H. unfold stored_body. apply truthy_Str in H. by rewrite H. Qed.

Lemma stored_body_error e :
  stored_body (Some e) "" = JSON.stringify_error (Error_toString e).
Proof. reflexivity. Qed.

(** A process started by one of the two dispatch methods is the shared
    dispatcher's, and it was started on a dedup miss. *)
Lemma started_by_spawned m document env s p :
  m = HLIDocker ∨ m = PublicDocker →
  started_by m document env s p →
  (p = spawned hli_prefix document ∨ p = spawned public_prefix document) ∧
  Collection.count (Collection.find "title" (get document "cmd") (Documents (server s))) = 0%nat.
Proof.
  unfold started_by. intros Hm Hp.
  assert (Hrun : ∃ prefix, (prefix = hli_prefix ∨ prefix = public_prefix) ∧
                           run m document env s = Dispatcher_run prefix document env s).
  { destruct Hm as [-> | ->]; [exists hli_prefix|exists public_prefix]; auto. }
  destruct Hrun as (prefix & Hpre & Hrun). rewrite Hrun in Hp.
  destruct (decide (Collection.count
    (Collection.find "title" (get document "cmd") (Documents (server s))) = 0%nat)) as [Hc|Hc].
  - rewrite Dispatcher_run_miss in Hp by done. cbn [snd processes] in Hp.
    apply app_inv_head in Hp. injection Hp as <-.
    split; [|done]. destruct Hpre as [-> | ->]; auto.
  - rewrite Dispatcher_run_hit in Hp by done. cbn [snd] in Hp.
    apply (f_equal length) in Hp. rewrite length_app in Hp. simpl in Hp. lia.
Qed.

Lemma started_by_callback m document env s p :
  m = HLIDocker ∨ m = PublicDocker →
  started_by m document env s p →
  callback p = Dispatcher_callback document ∧ maxBuffer p = 1024 * 1000.
Proof.
  intros Hm Hp. by destruct (started_by_spawned _ _ _ _ _ Hm Hp) as [[-> | ->] _].
Qed.

(** Delivery of a result with stdout non-empty or err non-null to a process
    of the dispatcher: the callback completes and the Record is written
    under the id drawn at that moment. *)
Lemma exec_done_persists env' i r s p document :
  processes s !! i = Some p →
  callback p = Dispatcher_callback document →
  stdout r ≠ "" ∨ err r ≠ None →
  exec_done env' i r s =
    (Normal (),
     {| server :=
          {| Documents :=
               Collection.upsert Undefined
                 (output_literal (get document "cmd") (stored_body (err r) (stdout r))
                    (stderr r) (now env'))
                 (randomId env') (Documents (server s));
             console := console (server s) ++ logged (err r) |};
        processes := processes s;
        limiter := limiter s |}).
Proof.
  intros Hi Hcb Hp. unfold exec_done, lift. rewrite Hi, Hcb.
  by rewrite Dispatcher_callback_persists.
Qed.

Lemma exec_done_throws env' i r s p document :
  processes s !! i = Some p →
  callback p = Dispatcher_callback document →
  err r = None → stdout r = "" →
  exec_done env' i r s = (Throw (TypeError "Cannot read property 'toString' of null"), s).
Proof.
  intros Hi Hcb He Ho. unfold exec_done, lift. rewrite Hi, Hcb, He, Ho.
  rewrite Dispatcher_callback_throws. by rewrite set_server_id.
Qed.

(** The payload written out: an object with the one property error, its
    value the escaped text between quotes. *)
Lemma stringify_error_shape s :
  let q := String (ascii_of_nat 34) "" in
  JSON.stringify_error s
  = "{" +:+ q +:+ "error" +:+ q +:+ ":" +:+ q +:+ JSON.escape s +:+ q +:+ "}".
Proof.
  intros q. subst q.
  transitivity
    (String "{" (String JSON.quote ("error" +:+ String JSON.quote (String ":"
       (String JSON.quote ((JSON.escape s +:+ String JSON.quote "") +:+ "}")))))).
  - reflexivity.
  - rewrite append_assoc. reflexivity.
Qed.

Lemma escape_char_plain c : plain c = true → JSON.escape_char c = String c "".
Proof. destruct c as [[] [] [] [] [] [] [] []]; (discriminate || reflexivity). Qed.

(** A text of plain characters is its own escaped form. *)
Lemma escape_plain s : all_plain s = true → JSON.escape s = s.
Proof.
  induction s as [|c r IH]; [done|].
  cbn [all_plain JSON.escape]. rewrite andb_true_iff. intros [Hc Hr].
  rewrite (escape_char_plain c Hc), (IH Hr). reflexivity.
Qed.

Lemma Error_toString_cases e :
  (errorName e = "" → Error_toString e = errorMessage e) ∧
  (errorMessage e = "" → Error_toString e = errorName e) ∧
  (errorName e ≠ "" → errorMessage e ≠ "" →
   Error_toString e = errorName e +:+ ": " +:+ errorMessage e).
Proof.
  unfold Error_toString. repeat case_bool_decide; repeat split; intros; congruence.
Qed.

(** C5. When a process started by docker.hli or docker.public completes with
    stdout non-empty or err non-null, the callback persists a Record under
    the id drawn at completion: it carries stderr verbatim and, as body,
    stdout verbatim whenever stdout is non-empty (whether or not the process
    failed), and the JSON error payload of the failure exactly when stdout
    is empty.  The payload is the text of an object with the one property
    error, whose string reads back to err.toString(), that is the name of
    the error, a colon and a space, and its message; a text of plain
    characters stands in it as it is. *)
Theorem completion_body m document env s p env' i r s' :
  m = HLIDocker ∨ m = PublicDocker →
  started_by m document env s p →
  processes s' !! i = Some p →
  stdout r ≠ "" ∨ err r ≠ None →
  ∃ s'' d,
    exec_done env' i r s' = (Normal (), s'') ∧
    Documents (server s'') !! randomId env' = Some d ∧
    d !! "title" = Some (Collection.stored (get document "cmd")) ∧
    d !! "stderr" = Some (Str (stderr r)) ∧
    d !! "createdAt" = Some (Date (now env')) ∧
    (stdout r ≠ "" → d !! "body" = Some (Str (stdout r))) ∧
    (stdout r = "" →
       ∃ e, err r = Some e ∧
            d !! "body" = Some (Str (JSON.stringify_error (Error_toString e)))) ∧
    (d !! "body" = Some (Str (stdout r)) ↔ stdout r ≠ "") ∧
    (stdout r = "" →
       ∃ e text payload,
         let q := String (ascii_of_nat 34) "" in
         err r = Some e ∧
         d !! "body" =
           Some (Str ("{" +:+ q +:+ "error" +:+ q +:+ ":" +:+ q +:+ payload +:+ q +:+ "}")) ∧
         unescape payload = Some text ∧
         (all_plain text = true → payload = text) ∧
         (errorName e = "" → text = errorMessage e) ∧
         (errorMessage e = "" → text = errorName e) ∧
         (errorName e ≠ "" → errorMessage e ≠ "" →
          text = errorName e +:+ ": " +:+ errorMessage e)).
Proof.
  intros Hm Hst Hi Hp.
  destruct (started_by_callback _ _ _ _ _ Hm Hst) as [Hcb _].
  rewrite (exec_done_persists _ _ _ _ _ _ Hi Hcb Hp).
  eexists _, _. split; [reflexivity|]. cbn [server Documents].
  rewrite upsert_fresh_lookup. split; [reflexivity|].
  destruct (output_record_fields (get document "cmd") (stored_body (err r) (stdout r))
              (stderr r) (now env') (default ∅ (Documents (server s') !! randomId env'))
              (randomId env')) as (Ht & Hb & He & Hd).
  split; [done|]. split; [done|]. split; [done|].
  rewrite Hb.
  destruct (decide (stdout r = "")) as [Ho|Ho].
  - rewrite Ho in *. destruct (err r) as [e|]; [|destruct Hp; done].
    rewrite stored_body_error.
    split; [done|]. split; [intros _; by exists e|].
    split.
    { split; [|done]. intros H. exfalso.
      apply (stringify_error_nonempty (Error_toString e)). congruence. }
    intros _. exists e, (Error_toString e), (JSON.escape (Error_toString e)).
    destruct (Error_toString_cases e) as (Hname & Hmsg & Hboth).
    cbv zeta. split; [done|].
    split; [by rewrite stringify_error_shape|].
    split; [apply unescape_escape|].
    split; [apply escape_plain|]. done.
  - rewrite stored_body_stdout by done. repeat split; done.
Qed.

Lemma completion_body_witness :
  ∃ s'' d,
    exec_done env1 0 failed_result echo_started = (Normal (), s'') ∧
    Documents (server s'') !! "id2" = Some d ∧
    d !! "title" = Some (Str "echo hi") ∧
    d !! "stderr" = Some (Str "Unable to find image") ∧
    d !! "createdAt" = Some (Date 40) ∧
    (stdout failed_result ≠ "" → d !! "body" = Some (Str "")) ∧
    (stdout failed_result = "" →
       ∃ e, err failed_result = Some e ∧
            d !! "body" = Some (Str (JSON.stringify_error (Error_toString e)))) ∧
    (d !! "body" = Some (Str "") ↔ stdout failed_result ≠ "") ∧
    (stdout failed_result = "" →
       ∃ e text payload,
         let q := String (ascii_of_nat 34) "" in
         err failed_result = Some e ∧
         d !! "body" =
           Some (Str ("{" +:+ q +:+ "error" +:+ q +:+ ":" +:+ q +:+ payload +:+ q +:+ "}")) ∧
         unescape payload = Some text ∧
         (all_plain text = true → payload = text) ∧
         (errorName e = "" → text = errorMessage e) ∧
         (errorMessage e = "" → text = errorName e) ∧
         (errorName e ≠ "" → errorMessage e ≠ "" →
          text = errorName e +:+ ": " +:+ errorMessage e)).
Proof.
  apply (completion_body HLIDocker echo_hi env0 init echo_process env1 0%nat
           failed_result echo_started).
  - left. reflexivity.
  - reflexivity.
  - reflexivity.
  - right. simpl. discriminate.
Defined.

(** ** The key of the persisted Record *)

(** Whatever _id the caller supplies, the dispatch writes under the id drawn
    at completion: a pre-supplied id that differs from it and is not yet in
    the store is still absent after the process has completed. *)
Lemma dispatch_ignores_supplied_id n prefix env document env' r s i :
  dispatch_method n prefix →
  document !! "_id" = Some (Str i) →
  Documents (server s) !! i = None →
  randomId env' ≠ i →
  Collection.findOne i (Documents (server (call_to_completion env n document env' r s))) = None.
Proof.
  intros Hn Hid Hi Hne. unfold Collection.findOne.
  destruct (validator dispatch_schema document) eqn:Hv;
    [|by rewrite (call_to_completion_invalid _ _ _ _ _ _ _ Hn Hv)].
  destruct (decide (Collection.count
    (Collection.find "title" (get document "cmd") (Documents (server s))) = 0%nat)) as [Hc|Hc];
    [|by rewrite (call_to_completion_hit _ _ _ _ _ _ _ Hn Hc)].
  rewrite (call_to_completion_miss _ _ _ _ _ _ _ Hn Hv Hc). cbn [server].
  destruct (decide (stdout r ≠ "" ∨ err r ≠ None)) as [Hp|Hp].
  - rewrite Dispatcher_callback_persists by done. cbn [snd Documents].
    by rewrite upsert_fresh_lookup_ne.
  - destruct (err r) as [e|] eqn:He; [destruct Hp; right; done|].
    destruct (stdout r) as [|c t] eqn:Ho; [|destruct Hp; left; done].
    by rewrite Dispatcher_callback_throws.
Qed.

(** C2. docker.hli called with the pre-supplied _id "abc" and cmd "echo hi"
    on the empty store: after the process has completed, the Record is
    stored under the id drawn at completion ("id2") and a lookup by the
    pre-supplied id finds nothing. *)
Theorem presupplied_id_not_used :
  echo_hi !! "_id" = Some (Str "abc") ∧
  Collection.findOne "abc" (Documents (server after_echo)) = None ∧
  (Meteor_view env1 "abc" after_echo).1 = Found None ∧
  ∃ d, Collection.findOne "id2" (Documents (server after_echo)) = Some d ∧
       d !! "title" = Some (Str "echo hi") ∧
       d !! "body" = Some (Str hi_newline).
Proof.
  assert (Habsent : Collection.findOne "abc" (Documents (server after_echo)) = None)
    by (apply (dispatch_ignores_supplied_id _ _ _ _ _ _ _ _ dispatch_hli); done).
  split; [reflexivity|]. split; [exact Habsent|]. split.
  - unfold Meteor_view. rewrite allow_untracked by done. cbn [fst].
    by rewrite set_limiter_id, Habsent.
  - pose proof (completed_record "docker.hli" hli_prefix env0 echo_hi env1 hi_result init
                  dispatch_hli eq_refl eq_refl) as H.
    eexists. split; [apply H; left; discriminate|].
    split; apply output_record_fields.
Qed.

(** C10. When a process started by docker.hli or docker.public completes
    with err null and empty stdout, the callback throws a TypeError
    (err.toString() on null) and the state stays as it was: no Record is
    persisted.  The callback completes normally exactly when stdout is
    non-empty or err is non-null. *)
Theorem null_err_empty_stdout_throws m document env s p env' i r s' :
  m = HLIDocker ∨ m = PublicDocker →
  started_by m document env s p →
  processes s' !! i = Some p →
  (err r = None → stdout r = "" →
     exec_done env' i r s' =
       (Throw (TypeError "Cannot read property 'toString' of null"), s')) ∧
  ((∃ s'', exec_done env' i r s' = (Normal (), s'')) ↔ (stdout r ≠ "" ∨ err r ≠ None)).
Proof.
  intros Hm Hst Hi.
  destruct (started_by_callback _ _ _ _ _ Hm Hst) as [Hcb _].
  split; [intros He Ho; by apply (exec_done_throws _ _ _ _ _ _ Hi Hcb)|]. split.
  - intros [s'' H].
    destruct (stdout r) as [|c t] eqn:Ho; [|left; done].
    destruct (err r) as [e|] eqn:He; [right; done|].
    rewrite (exec_done_throws _ _ _ _ _ _ Hi Hcb He Ho) in H. discriminate.
  - intros Hp. rewrite (exec_done_persists _ _ _ _ _ _ Hi Hcb Hp). eauto.
Qed.

Lemma null_err_empty_stdout_throws_witness :
  (err silent_result = None → stdout silent_result = "" →
     exec_done env1 0 silent_result public_started =
       (Throw (TypeError "Cannot read property 'toString' of null"), public_started)) ∧
  ((∃ s'', exec_done env1 0 silent_result public_started = (Normal (), s'')) ↔
   (stdout silent_result ≠ "" ∨ err silent_result ≠ None)).
Proof.
  apply (null_err_empty_stdout_throws PublicDocker echo_hi env0 init
           (spawned public_prefix echo_hi) env1 0%nat silent_result
           public_started).
  - right. reflexivity.
  - reflexivity.
  - reflexivity.
Defined.

(** ** The two dispatch entry points *)

(** C7. docker.hli and docker.public validate the same shape and are the
    one dispatcher run under two prefixes: on every state and input they
    give the same response, leave the same Documents, console and limiter
    after completion, and either both start no process or start processes
    that have the same maxBuffer and the same callback and whose command
    lines differ only in the prefix. *)
Theorem hli_public_differ_only_in_prefix :
  validate HLIDocker = validate PublicDocker ∧
  run HLIDocker = Dispatcher_run "docker run --rm tanghaibao/tredparse" ∧
  run PublicDocker = Dispatcher_run "docker run --rm tanghaibao/tredparse-public" ∧
  ∀ env document env' r s,
    let h := call_to_completion env "docker.hli" document env' r s in
    let p := call_to_completion env "docker.public" document env' r s in
    (Meteor_call env "docker.hli" document s).1 = (Meteor_call env "docker.public" document s).1 ∧
    server h = server p ∧
    limiter h = limiter p ∧
    (processes h = processes s ∧ processes p = processes s ∨
     ∃ rest k,
       processes h = processes s ++
         [{| command := "docker run --rm tanghaibao/tredparse" +:+ " " +:+ rest;
             maxBuffer := 1024 * 1000; callback := k |}] ∧
       processes p = processes s ++
         [{| command := "docker run --rm tanghaibao/tredparse-public" +:+ " " +:+ rest;
             maxBuffer := 1024 * 1000; callback := k |}]).
Proof.
  split; [reflexivity|]. split; [reflexivity|]. split; [reflexivity|].
  intros env document env' r s h p. subst h p.
  destruct (validator dispatch_schema document) eqn:Hv.
  - destruct (decide (Collection.count
      (Collection.find "title" (get document "cmd") (Documents (server s))) = 0%nat)) as [Hc|Hc].
    + rewrite (call_to_completion_miss _ _ _ _ _ _ _ dispatch_hli Hv Hc).
      rewrite (call_to_completion_miss _ _ _ _ _ _ _ dispatch_public Hv Hc).
      rewrite (Meteor_call_miss _ _ _ _ _ dispatch_hli Hv Hc).
      rewrite (Meteor_call_miss _ _ _ _ _ dispatch_public Hv Hc).
      repeat split. right.
      exists (interpolate (get document "cmd")), (Dispatcher_callback document).
      split; reflexivity.
    + rewrite (call_to_completion_hit _ _ _ _ _ _ _ dispatch_hli Hc).
      rewrite (call_to_completion_hit _ _ _ _ _ _ _ dispatch_public Hc).
      rewrite (Meteor_call_hit _ _ _ _ _ dispatch_hli Hv Hc).
      rewrite (Meteor_call_hit _ _ _ _ _ dispatch_public Hv Hc).
      repeat split. by left.
  - rewrite (call_to_completion_invalid _ _ _ _ _ _ _ dispatch_hli Hv).
    rewrite (call_to_completion_invalid _ _ _ _ _ _ _ dispatch_public Hv).
    rewrite (Meteor_call_dispatch _ _ _ _ _ dispatch_hli).
    rewrite (Meteor_call_dispatch _ _ _ _ _ dispatch_public). rewrite Hv.
    repeat split. by left.
Qed.

(** ** Bounded capture *)

Lemma byteLength_iter c p s :
  byteLength (Pos.iter (String c) s p) = Z.pos p + byteLength s.
Proof.
  revert s. induction p as [p IH|p IH|]; intros s; simpl.
  - rewrite !IH. lia.
  - rewrite !IH. lia.
  - lia.
Qed.

Lemma byteLength_full_buffer : byteLength full_buffer = 1024000.
Proof. unfold full_buffer. rewrite byteLength_iter. reflexivity. Qed.

(** C4, as stated, fails: an exec result that stays within the maxBuffer the
    code passes (1024 * 1000) is persisted with a body above 1,000,000
    bytes. *)
Lemma body_above_one_million :
  within_maxBuffer (1024 * 1000) full_result ∧
  ∃ d out,
    Documents (server (call_to_completion env0 "docker.hli" echo_hi env1 full_result init))
      !! "id2" = Some d ∧
    d !! "body" = Some (Str out) ∧
    1000000 < byteLength out.
Proof.
  assert (Hne : full_buffer ≠ "").
  { apply byteLength_pos_nonempty. rewrite byteLength_full_buffer. lia. }
  split.
  - split; cbn [stdout stderr full_result].
    + rewrite byteLength_full_buffer. lia.
    + simpl. lia.
  - pose proof (completed_record "docker.hli" hli_prefix env0 echo_hi env1 full_result init
                  dispatch_hli eq_refl eq_refl (or_introl Hne)) as H.
    eexists _, full_buffer. split; [exact H|]. split.
    + cbn [err stdout stderr full_result]. rewrite stored_body_stdout by done.
      apply output_record_fields.
    + rewrite byteLength_full_buffer. lia.
Qed.

Lemma escape_char_length c : 1 ≤ byteLength (JSON.escape_char c).
Proof.
  unfold JSON.escape_char.
  repeat match goal with |- context [if ?b then _ else _] => destruct b end;
    simpl; pose proof (byteLength_nonneg ""); lia.
Qed.

Lemma escape_length s : byteLength s ≤ byteLength (JSON.escape s).
Proof.
  induction s as [|c r IH]; simpl; [lia|].
  rewrite byteLength_app. pose proof (escape_char_length c). lia.
Qed.

(** The JSON error payload is longer than the message it wraps. *)
Lemma stringify_error_longer s : byteLength s < byteLength (JSON.stringify_error s).
Proof.
  unfold JSON.stringify_error, JSON.quoted.
  change ("{" +:+ ?x) with (String "{" x). cbn [byteLength].
  repeat (rewrite ?byteLength_app; cbn [byteLength]).
  pose proof (escape_length s). pose proof (byteLength_nonneg (JSON.escape "error")). lia.
Qed.

Lemma Error_toString_length n m :
  n ≠ "" → m ≠ "" →
  byteLength (Error_toString {| errorName := n; errorMessage := m |})
  = byteLength n + (2 + byteLength m).
Proof.
  intros Hn Hm. unfold Error_toString. cbn [errorName errorMessage].
  rewrite !bool_decide_eq_false_2 by done.
  rewrite !byteLength_app. reflexivity.
Qed.

Lemma error_payload_longer n m :
  n ≠ "" → m ≠ "" →
  byteLength m < byteLength (stored_body (Some {| errorName := n; errorMessage := m |}) "").
Proof.
  intros Hn Hm. rewrite stored_body_error.
  eapply Z.lt_trans; [|apply stringify_error_longer].
  rewrite Error_toString_length by done.
  pose proof (byteLength_nonneg n). lia.
Qed.

(** The bound does not extend to the error payload: a failure within
    maxBuffer whose message fills the buffer is persisted with a body above
    1,024,000 bytes. *)
Lemma error_payload_above_maxBuffer :
  within_maxBuffer (1024 * 1000) long_failure ∧
  ∃ d out,
    Documents (server (call_to_completion env0 "docker.hli" echo_hi env1 long_failure init))
      !! "id2" = Some d ∧
    d !! "body" = Some (Str out) ∧
    1024 * 1000 < byteLength out.
Proof.
  assert (Hne : full_buffer ≠ "").
  { apply byteLength_pos_nonempty. rewrite byteLength_full_buffer. lia. }
  assert (Hfull : 1024 * 1000 ≤ byteLength full_buffer).
  { rewrite byteLength_full_buffer. lia. }
  split; [split; cbn [stdout stderr long_failure byteLength]; lia|].
  assert (Hp : stdout long_failure ≠ "" ∨ err long_failure ≠ None) by (right; discriminate).
  pose proof (completed_record "docker.hli" hli_prefix env0 echo_hi env1 long_failure init
                dispatch_hli eq_refl eq_refl Hp) as H.
  eexists _, _. split; [exact H|]. split; [apply output_record_fields|].
  exact (Z.le_lt_trans _ _ _ Hfull
           (error_payload_longer "Error" full_buffer ltac:(discriminate) Hne)).
Qed.

(** *** What exec collects *)

Lemma truncate_length n s : byteLength (truncate n s) ≤ Z.max 0 n.
Proof.
  revert n. induction s as [|c r IH]; intros n; cbn [truncate byteLength]; [lia|].
  destruct (0 <? n) eqn:E; cbn [byteLength]; [|lia].
  apply Z.ltb_lt in E. specialize (IH (n - 1)). lia.
Qed.

Lemma truncate_prefix n s : ∃ rest, s = truncate n s +:+ rest.
Proof.
  revert n. induction s as [|c r IH]; intros n; cbn [truncate]; [by exists ""|].
  destruct (0 <? n).
  - destruct (IH (n - 1)) as [rest Hrest]. exists rest.
    change (String c r = String c (truncate (n - 1) r +:+ rest)). by rewrite <- Hrest.
  - by exists (String c r).
Qed.

Lemma truncate_all n s : byteLength s ≤ n → truncate n s = s.
Proof.
  revert n. induction s as [|c r IH]; intros n H; cbn [truncate byteLength] in *; [done|].
  pose proof (byteLength_nonneg r).
  destruct (0 <? n) eqn:E; [|apply Z.ltb_ge in E; lia].
  rewrite IH by lia. done.
Qed.

Lemma written_to_cons_same st data rest :
  written_to st ((st, data) :: rest) = data +:+ written_to st rest.
Proof. cbn [written_to]. by rewrite bool_decide_eq_true_2. Qed.

Lemma written_to_cons_other st st' data rest :
  st' ≠ st → written_to st ((st', data) :: rest) = written_to st rest.
Proof. intros H. cbn [written_to]. by rewrite bool_decide_eq_false_2. Qed.

(** Once the maxBuffer error is raised nothing more is collected. *)
Lemma foldl_onData_stuck m chunks r :
  err r ≠ None → foldl (onData m) r chunks = r.
Proof.
  intros H. induction chunks as [|chunk rest IH]; [done|].
  cbn [foldl]. unfold onData at 2. destruct (err r); [exact IH|done].
Qed.

Lemma onData_within m r chunk :
  0 ≤ m → within_maxBuffer m r → within_maxBuffer m (onData m r chunk).
Proof.
  intros Hm [Ho He]. unfold onData. destruct (err r); [done|].
  destruct chunk as [[] data].
  - destruct (m <? byteLength (stdout r) + byteLength data) eqn:E;
      split; cbn [stdout stderr]; rewrite ?byteLength_app; try done.
    + pose proof (truncate_length (m - byteLength (stdout r)) data). lia.
    + apply Z.ltb_ge in E. lia.
  - destruct (m <? byteLength (stderr r) + byteLength data) eqn:E;
      split; cbn [stdout stderr]; rewrite ?byteLength_app; try done.
    + pose proof (truncate_length (m - byteLength (stderr r)) data). lia.
    + apply Z.ltb_ge in E. lia.
Qed.

Lemma foldl_onData_within m chunks r :
  0 ≤ m → within_maxBuffer m r → within_maxBuffer m (foldl (onData m) r chunks).
Proof.
  intros Hm. revert r. induction chunks as [|chunk rest IH]; intros r Hr; [done|].
  cbn [foldl]. apply IH. by apply onData_within.
Qed.

(** Whatever the child writes, what exec hands to the callback is within
    maxBuffer on both streams. *)
Lemma collect_within_maxBuffer m c : 0 ≤ m → within_maxBuffer m (collect m c).
Proof.
  intros Hm. unfold collect.
  pose proof (foldl_onData_within m (written c) {| err := None; stdout := ""; stderr := "" |} Hm)
    as H.
  destruct H as [Ho He]; [split; cbn [stdout stderr byteLength]; lia|].
  split; cbn [stdout stderr]; done.
Qed.

(** What was collected from a stream is the beginning of what the child
    wrote to it. *)
Lemma foldl_onData_prefix m chunks r :
  (∃ rest, stdout r +:+ written_to ToStdout chunks
           = stdout (foldl (onData m) r chunks) +:+ rest) ∧
  (∃ rest, stderr r +:+ written_to ToStderr chunks
           = stderr (foldl (onData m) r chunks) +:+ rest).
Proof.
  revert r. induction chunks as [|[st data] rest IH]; intros r.
  { cbn [foldl written_to]. split; by exists "". }
  destruct (err r) as [e|] eqn:Herr.
  { rewrite foldl_onData_stuck by congruence. split; by eexists. }
  cbn [foldl]. destruct (IH (onData m r (st, data))) as [[ro Ho] [re He]]. clear IH.
  remember (onData m r (st, data)) as r' eqn:Hr'.
  unfold onData in Hr'. rewrite Herr in Hr'. destruct st.
  - rewrite !written_to_cons_same, !written_to_cons_other by done.
    destruct (m <? byteLength (stdout r) + byteLength data).
    + rewrite foldl_onData_stuck by (subst r'; done). subst r'. cbn [stdout stderr].
      destruct (truncate_prefix (m - byteLength (stdout r)) data) as [cut Hcut].
      split; [|by eexists].
      exists (cut +:+ written_to ToStdout rest).
      rewrite append_assoc. rewrite <- (append_assoc _ cut). by rewrite <- Hcut.
    + subst r'. cbn [stdout stderr] in Ho, He. split; [|by exists re].
      exists ro. by rewrite <- Ho, append_assoc.
  - rewrite !written_to_cons_same, !written_to_cons_other by done.
    destruct (m <? byteLength (stderr r) + byteLength data).
    + rewrite foldl_onData_stuck by (subst r'; done). subst r'. cbn [stdout stderr].
      destruct (truncate_prefix (m - byteLength (stderr r)) data) as [cut Hcut].
      split; [by eexists|].
      exists (cut +:+ written_to ToStderr rest).
      rewrite append_assoc. rewrite <- (append_assoc _ cut). by rewrite <- Hcut.
    + subst r'. cbn [stdout stderr] in Ho, He. split; [by exists ro|].
      exists re. by rewrite <- He, append_assoc.
Qed.

(** A child that stays within maxBuffer on both streams has all its output
    collected, and no maxBuffer error is raised. *)
Lemma foldl_onData_complete m chunks r :
  err r = None →
  byteLength (stdout r) + byteLength (written_to ToStdout chunks) ≤ m →
  byteLength (stderr r) + byteLength (written_to ToStderr chunks) ≤ m →
  foldl (onData m) r chunks =
    {| err := None;
       stdout := stdout r +:+ written_to ToStdout chunks;
       stderr := stderr r +:+ written_to ToStderr chunks |}.
Proof.
  revert r. induction chunks as [|[st data] rest IH]; intros r Herr Ho He.
  { cbn [foldl written_to]. rewrite !append_empty_r. destruct r; cbn in *. by subst. }
  cbn [foldl]. revert Ho He. unfold onData. rewrite Herr.
  pose proof (byteLength_nonneg (written_to ToStdout rest)).
  pose proof (byteLength_nonneg (written_to ToStderr rest)).
  destruct st.
  - rewrite !written_to_cons_same, !written_to_cons_other by done.
    rewrite byteLength_app. intros Ho He.
    destruct (m <? byteLength (stdout r) + byteLength data) eqn:E;
      [apply Z.ltb_lt in E; lia|].
    rewrite IH; cbn [err stdout stderr]; rewrite ?byteLength_app; try done; [|lia].
    by rewrite append_assoc.
  - rewrite !written_to_cons_same, !written_to_cons_other by done.
    rewrite byteLength_app. intros Ho He.
    destruct (m <? byteLength (stderr r) + byteLength data) eqn:E;
      [apply Z.ltb_lt in E; lia|].
    rewrite IH; cbn [err stdout stderr]; rewrite ?byteLength_app; try done; [|lia].
    by rewrite append_assoc.
Qed.

(** A child that writes more than maxBuffer to one of its streams has the
    maxBuffer error raised. *)
Lemma foldl_onData_exceeded m chunks r :
  within_maxBuffer m r →
  m < byteLength (stdout r) + byteLength (written_to ToStdout chunks) ∨
  m < byteLength (stderr r) + byteLength (written_to ToStderr chunks) →
  err (foldl (onData m) r chunks) ≠ None.
Proof.
  revert r. induction chunks as [|[st data] rest IH]; intros r [Ho He] Hex.
  { cbn [written_to byteLength] in Hex. lia. }
  destruct (err r) as [e|] eqn:Herr.
  { rewrite foldl_onData_stuck by congruence. congruence. }
  cbn [foldl]. revert Hex. unfold onData at 2. rewrite Herr. destruct st.
  - rewrite !written_to_cons_same, !written_to_cons_other by done.
    rewrite byteLength_app. intros Hex.
    destruct (m <? byteLength (stdout r) + byteLength data) eqn:E.
    + by rewrite foldl_onData_stuck.
    + apply Z.ltb_ge in E. apply IH.
      * split; cbn [stdout stderr]; rewrite ?byteLength_app; lia.
      * cbn [stdout stderr]. rewrite byteLength_app. lia.
  - rewrite !written_to_cons_same, !written_to_cons_other by done.
    rewrite byteLength_app. intros Hex.
    destruct (m <? byteLength (stderr r) + byteLength data) eqn:E.
    + by rewrite foldl_onData_stuck.
    + apply Z.ltb_ge in E. apply IH.
      * split; cbn [stdout stderr]; rewrite ?byteLength_app; lia.
      * cbn [stdout stderr]. rewrite byteLength_app. lia.
Qed.

Lemma collect_prefix m c :
  (∃ rest, written_to ToStdout (written c) = stdout (collect m c) +:+ rest) ∧
  (∃ rest, written_to ToStderr (written c) = stderr (collect m c) +:+ rest).
Proof.
  exact (foldl_onData_prefix m (written c) {| err := None; stdout := ""; stderr := "" |}).
Qed.

Lemma collect_complete m c :
  byteLength (written_to ToStdout (written c)) ≤ m →
  byteLength (written_to ToStderr (written c)) ≤ m →
  collect m c =
    {| err := ended c;
       stdout := written_to ToStdout (written c);
       stderr := written_to ToStderr (written c) |}.
Proof.
  intros Ho He. unfold collect.
  rewrite (foldl_onData_complete m (written c) {| err := None; stdout := ""; stderr := "" |})
    by done.
  reflexivity.
Qed.

Lemma collect_exceeded m c :
  0 ≤ m →
  m < byteLength (written_to ToStdout (written c)) ∨
  m < byteLength (written_to ToStderr (written c)) →
  err (collect m c) ≠ None.
Proof.
  intros Hm Hex. unfold collect. cbn [err].
  pose proof (foldl_onData_exceeded m (written c) {| err := None; stdout := ""; stderr := "" |})
    as H.
  destruct (err (foldl (onData m) {| err := None; stdout := ""; stderr := "" |} (written c)));
    [done|].
  exfalso. apply H; [split; cbn [stdout stderr byteLength]; lia|exact Hex|done].
Qed.

Lemma child_done_exec_done env i c s p :
  processes s !! i = Some p →
  child_done env i c s = exec_done env i (collect (maxBuffer p) c) s.
Proof. intros H. unfold child_done. by rewrite H. Qed.

Lemma collect_noisy_failure cmd :
  collect 1024000 (noisy_failure cmd) =
    {| err := ended (noisy_failure cmd); stdout := ""; stderr := full_buffer |}.
Proof.
  assert (Ho : written_to ToStdout (written (noisy_failure cmd)) = "").
  { unfold noisy_failure. cbn [written]. by rewrite written_to_cons_other. }
  assert (He : written_to ToStderr (written (noisy_failure cmd)) = full_buffer).
  { unfold noisy_failure. cbn [written]. rewrite written_to_cons_same.
    cbn [written_to]. apply append_empty_r. }
  rewrite collect_complete; rewrite ?Ho, ?He.
  - reflexivity.
  - cbn [byteLength]. lia.
  - rewrite byteLength_full_buffer. lia.
Qed.

Lemma byteLength_String c s : byteLength (String c s) = 1 + byteLength s.
Proof. reflexivity. Qed.

(** A child that writes exactly 1,024,000 bytes to stdout and exits with
    code 0 has all of them handed to the callback. *)
Lemma collect_full_buffer :
  collect 1024000 {| written := [(ToStdout, full_buffer)]; ended := None |} = full_result.
Proof.
  set (c := {| written := [(ToStdout, full_buffer)]; ended := None |}).
  assert (Ho : written_to ToStdout (written c) = full_buffer).
  { unfold c. cbn [written]. rewrite written_to_cons_same.
    cbn [written_to]. apply append_empty_r. }
  assert (He : written_to ToStderr (written c) = "").
  { unfold c. cbn [written]. by rewrite written_to_cons_other. }
  rewrite collect_complete; rewrite ?Ho, ?He.
  - reflexivity.
  - rewrite byteLength_full_buffer. lia.
  - cbn [byteLength]. lia.
Qed.

(** The body persisted for [noisy_failure] is longer than maxBuffer. *)
Lemma noisy_failure_body cmd :
  1024000 < byteLength (stored_body (ended (noisy_failure cmd)) "").
Proof.
  unfold noisy_failure. cbn [ended].
  pose proof (byteLength_nonneg cmd) as Hcmd.
  assert (Hlen : 1024000 < byteLength
            ("Command failed: " +:+ cmd +:+ String (ascii_of_nat 10) full_buffer)).
  { rewrite !byteLength_app, (byteLength_String (ascii_of_nat 10) full_buffer).
    rewrite byteLength_full_buffer.
    pose proof (byteLength_nonneg "Command failed: "). lia. }
  eapply Z.lt_trans; [exact Hlen|].
  apply error_payload_longer; [discriminate|].
  exact (byteLength_pos_nonempty _ (Z.lt_trans 0 1024000 _ eq_refl Hlen)).
Qed.

Lemma not_None_Some {A} (a : A) : Some a ≠ None.
Proof. discriminate. Qed.

(** What exec collects from [noisy_failure]: nothing on stdout, a full
    buffer on stderr and the error of the failure, whose payload is longer
    than maxBuffer. *)
Lemma noisy_failure_collected cmd :
  stdout (collect 1024000 (noisy_failure cmd)) = "" ∧
  byteLength (stderr (collect 1024000 (noisy_failure cmd))) ≤ 1024000 ∧
  err (collect 1024000 (noisy_failure cmd)) ≠ None ∧
  1024000 < byteLength (stored_body (err (collect 1024000 (noisy_failure cmd))) "").
Proof.
  rewrite collect_noisy_failure. cbn [err stdout stderr].
  split; [reflexivity|]. split; [rewrite byteLength_full_buffer; lia|].
  split; [apply not_None_Some|]. apply noisy_failure_body.
Qed.

Lemma child_done_capped env i c s p cap :
  processes s !! i = Some p → maxBuffer p = cap →
  child_done env i c s = exec_done env i (collect cap c) s.
Proof. intros H <-. unfold child_done. by rewrite H. Qed.

(** A result without stdout and with an error is persisted with the error
    payload as body. *)
Lemma persisted_without_stdout env' i s' p document r :
  processes s' !! i = Some p →
  callback p = Dispatcher_callback document →
  stdout r = "" → err r ≠ None →
  ∃ s'' d,
    exec_done env' i r s' = (Normal (), s'') ∧
    Documents (server s'') !! randomId env' = Some d ∧
    d !! "body" = Some (Str (stored_body (err r) "")).
Proof.
  intros Hi Hcb Ho He.
  rewrite (exec_done_persists _ _ _ _ _ _ Hi Hcb (or_intror He)).
  eexists _, _. split; [reflexivity|]. cbn [server Documents].
  rewrite upsert_fresh_lookup. split; [reflexivity|].
  rewrite Ho. apply output_record_fields.
Qed.

(** C4 (amended). docker.hli and docker.public hand exec the option
    maxBuffer = 1024 * 1000 = 1,024,000.  Whatever the child process writes,
    what exec collects from each stream is the beginning of what was written
    to it, of at most 1,024,000 bytes: all of it when the child stayed
    within the cap on both streams, and otherwise exec reports an error.
    When the callback persists (stdout non-empty or err non-null), the
    Record carries the collected stderr, of at most 1,024,000 bytes, and,
    when the collected stdout is non-empty, that stdout as body, of at most
    1,024,000 bytes.  When the collected stdout is empty the body is the
    JSON error payload, which the cap does not bound: a child that fills
    stderr and fails is persisted with a body above 1,024,000 bytes. *)
Theorem capture_bounded_by_maxBuffer m document env s p env' i child s' :
  m = HLIDocker ∨ m = PublicDocker →
  started_by m document env s p →
  processes s' !! i = Some p →
  let r := collect (maxBuffer p) child in
  maxBuffer p = 1024 * 1000 ∧
  (∃ rest, written_to ToStdout (written child) = stdout r +:+ rest) ∧
  (∃ rest, written_to ToStderr (written child) = stderr r +:+ rest) ∧
  byteLength (stdout r) ≤ 1024000 ∧
  byteLength (stderr r) ≤ 1024000 ∧
  (byteLength (written_to ToStdout (written child)) ≤ 1024000 →
   byteLength (written_to ToStderr (written child)) ≤ 1024000 →
   stdout r = written_to ToStdout (written child) ∧
   stderr r = written_to ToStderr (written child) ∧
   err r = ended child) ∧
  (1024000 < byteLength (written_to ToStdout (written child)) ∨
   1024000 < byteLength (written_to ToStderr (written child)) →
   err r ≠ None) ∧
  (stdout r ≠ "" ∨ err r ≠ None →
   ∃ s'' d,
     child_done env' i child s' = (Normal (), s'') ∧
     Documents (server s'') !! randomId env' = Some d ∧
     d !! "stderr" = Some (Str (stderr r)) ∧
     (stdout r ≠ "" → d !! "body" = Some (Str (stdout r))) ∧
     (stdout r = "" →
        ∃ e, err r = Some e ∧
             d !! "body" = Some (Str (JSON.stringify_error (Error_toString e))))) ∧
  (∃ s'' d out,
     stdout (collect (maxBuffer p) (noisy_failure (command p))) = "" ∧
     byteLength (stderr (collect (maxBuffer p) (noisy_failure (command p)))) ≤ 1024000 ∧
     child_done env' i (noisy_failure (command p)) s' = (Normal (), s'') ∧
     Documents (server s'') !! randomId env' = Some d ∧
     d !! "body" = Some (Str out) ∧
     1024000 < byteLength out).
Proof.
  intros Hm Hst Hi r.
  destruct (started_by_callback _ _ _ _ _ Hm Hst) as [Hcb Hmax].
  assert (Hcap : maxBuffer p = 1024000) by (rewrite Hmax; reflexivity).
  subst r. rewrite Hcap.
  destruct (collect_within_maxBuffer 1024000 child ltac:(lia)) as [Ho He].
  destruct (collect_prefix 1024000 child) as [Hpo Hpe].
  split; [done|]. split; [exact Hpo|]. split; [exact Hpe|].
  split; [exact Ho|]. split; [exact He|].
  split.
  { intros Hwo Hwe. by rewrite (collect_complete _ _ Hwo Hwe). }
  split.
  { apply collect_exceeded. lia. }
  split.
  - intros Hp.
    rewrite (child_done_exec_done _ _ _ _ _ Hi), Hcap.
    rewrite (exec_done_persists _ _ _ _ _ _ Hi Hcb Hp).
    eexists _, _. split; [reflexivity|]. cbn [server Documents].
    rewrite upsert_fresh_lookup. split; [reflexivity|].
    destruct (output_record_fields (get document "cmd")
                (stored_body (err (collect 1024000 child)) (stdout (collect 1024000 child)))
                (stderr (collect 1024000 child)) (now env')
                (default ∅ (Documents (server s') !! randomId env'))
                (randomId env')) as (_ & Hb & Hs & _).
    split; [done|]. rewrite Hb. split.
    + intros Hne. by rewrite stored_body_stdout.
    + intros Hempty. rewrite Hempty in *.
      destruct (err (collect 1024000 child)) as [e|]; [|destruct Hp; done].
      exists e. by rewrite stored_body_error.
  - destruct (noisy_failure_collected (command p)) as (Hn1 & Hn2 & Hn3 & Hn4).
    destruct (persisted_without_stdout env' i s' p document _ Hi Hcb Hn1 Hn3)
      as (s0 & d0 & H1 & H2 & H3).
    exists s0, d0, (stored_body (err (collect 1024000 (noisy_failure (command p)))) "").
    split; [exact Hn1|]. split; [exact Hn2|].
    split; [exact (eq_trans (child_done_capped _ _ _ _ _ _ Hi Hcap) H1)|].
    split; [exact H2|]. split; [exact H3|exact Hn4].
Qed.

Lemma capture_bounded_by_maxBuffer_witness :
  let r := collect (maxBuffer echo_process) hi_child in
  maxBuffer echo_process = 1024 * 1000 ∧
  (∃ rest, written_to ToStdout (written hi_child) = stdout r +:+ rest) ∧
  (∃ rest, written_to ToStderr (written hi_child) = stderr r +:+ rest) ∧
  byteLength (stdout r) ≤ 1024000 ∧
  byteLength (stderr r) ≤ 1024000 ∧
  (byteLength (written_to ToStdout (written hi_child)) ≤ 1024000 →
   byteLength (written_to ToStderr (written hi_child)) ≤ 1024000 →
   stdout r = written_to ToStdout (written hi_child) ∧
   stderr r = written_to ToStderr (written hi_child) ∧
   err r = ended hi_child) ∧
  (1024000 < byteLength (written_to ToStdout (written hi_child)) ∨
   1024000 < byteLength (written_to ToStderr (written hi_child)) →
   err r ≠ None) ∧
  (stdout r ≠ "" ∨ err r ≠ None →
   ∃ s'' d,
     child_done env1 0 hi_child echo_started = (Normal (), s'') ∧
     Documents (server s'') !! randomId env1 = Some d ∧
     d !! "stderr" = Some (Str (stderr r)) ∧
     (stdout r ≠ "" → d !! "body" = Some (Str (stdout r))) ∧
     (stdout r = "" →
        ∃ e, err r = Some e ∧
             d !! "body" = Some (Str (JSON.stringify_error (Error_toString e))))) ∧
  (∃ s'' d out,
     stdout (collect (maxBuffer echo_process) (noisy_failure (command echo_process))) = "" ∧
     byteLength (stderr (collect (maxBuffer echo_process)
                           (noisy_failure (command echo_process)))) ≤ 1024000 ∧
     child_done env1 0 (noisy_failure (command echo_process)) echo_started
       = (Normal (), s'') ∧
     Documents (server s'') !! randomId env1 = Some d ∧
     d !! "body" = Some (Str out) ∧
     1024000 < byteLength out).
Proof.
  apply (capture_bounded_by_maxBuffer HLIDocker echo_hi env0 init echo_process env1 0%nat
           hi_child echo_started).
  - left. reflexivity.
  - reflexivity.
  - reflexivity.
Defined.

(** ** Upsert *)

Lemma set_fields_twice fields (old : object) :
  Collection.set_fields fields (Collection.set_fields fields old) =
  Collection.set_fields fields old.
Proof.
  unfold Collection.set_fields.
  by rewrite (assoc_L (∪)), (idemp_L (∪)).
Qed.

Lemma set_fields_lookup fields (old : object) k v :
  fields !! k = Some v →
  Collection.set_fields fields old !! k = Some (Collection.stored v).
Proof.
  intros H. unfold Collection.set_fields.
  apply lookup_union_Some_l. by rewrite lookup_fmap, H.
Qed.

(** An upsert selected by the _id the fields themselves carry. *)
Lemma upsert_by_own_id fields i fresh (c : gmap string object) :
  fields !! "_id" = Some (Str i) →
  Collection.upsert (Str i) fields fresh c =
    <[i := Collection.set_fields fields (default ∅ (c !! i))]> c.
Proof.
  intros Hid. unfold Collection.upsert. simpl. f_equal.
  apply insert_id. by apply (set_fields_lookup _ _ _ (Str i)).
Qed.

Lemma upsert_idempotent fields i fresh fresh' (c : gmap string object) :
  fields !! "_id" = Some (Str i) →
  Collection.upsert (Str i) fields fresh' (Collection.upsert (Str i) fields fresh c) =
  Collection.upsert (Str i) fields fresh c.
Proof.
  intros Hid. rewrite !upsert_by_own_id by done.
  rewrite lookup_insert_eq. simpl.
  by rewrite set_fields_twice, insert_insert_eq.
Qed.

Lemma run_upsertDocument document env s :
  run upsertDocument document env s =
    (Normal (match Documents (server s) !! Collection.upsert_key (get document "_id") (randomId env) with
             | Some _ => RUpsert 1 None
             | None => RUpsert 1 (Some (Collection.upsert_key (get document "_id") (randomId env)))
             end),
     {| server :=
          {| Documents := Collection.upsert (get document "_id") document (randomId env)
                            (Documents (server s));
             console := console (server s) |};
        processes := processes s;
        limiter := limiter s |}).
Proof. reflexivity. Qed.

(** What a documents.upsert call through the gateway does to the Documents:
    the upsert of its arguments when it returns a result, nothing when it is
    refused. *)
Lemma Meteor_call_upsert env args s :
  let out := Meteor_call env "documents.upsert" args s in
  ((∃ r, out.1 = Result r) ∧
   Documents (server out.2) =
     Collection.upsert (get args "_id") args (randomId env) (Documents (server s))) ∨
  ((∀ r, out.1 ≠ Result r) ∧ Documents (server out.2) = Documents (server s)).
Proof.
  unfold Meteor_call.
  destruct (RateLimit.allow rule "documents.upsert" (connection env) (now env) (limiter s))
    as [ok l].
  destruct ok; [|by right].
  change (find_method "documents.upsert") with (Some upsertDocument). cbv iota.
  destruct (validate upsertDocument args); [|by right].
  rewrite run_upsertDocument. left. split; [eauto|reflexivity].
Qed.

(** C9. Running documents.upsert a second time with the same document (one
    that carries an _id) leaves the state exactly as the first run left it:
    the Documents hold one Record under that _id, with the fields of the
    document, and the second run adds none.  Through the gateway, a second
    call after a first one that returned a result leaves the Documents of
    the first. *)
Theorem upsert_twice_is_upsert_once document i env1 env2 s :
  document !! "_id" = Some (Str i) →
  let s1 := (run upsertDocument document env1 s).2 in
  let s2 := (run upsertDocument document env2 s1).2 in
  let g1 := Meteor_call env1 "documents.upsert" document s in
  let g2 := Meteor_call env2 "documents.upsert" document g1.2 in
  s2 = s1 ∧
  size (Documents (server s2)) = size (Documents (server s1)) ∧
  size (Documents (server s1)) =
    (match Documents (server s) !! i with Some _ => id | None => S end)
      (size (Documents (server s))) ∧
  (∃ d, Documents (server s2) !! i = Some d ∧
        ∀ k v, document !! k = Some v → d !! k = Some (Collection.stored v)) ∧
  ((∃ r, g1.1 = Result r) → Documents (server g2.2) = Documents (server g1.2)).
Proof.
  intros Hid s1 s2 g1 g2.
  assert (Hg : get document "_id" = Str i) by (unfold get; by rewrite Hid).
  split; [|split; [|split; [|split]]].
  - subst s1 s2. rewrite !run_upsertDocument.
    cbn [snd server Documents console processes limiter].
    by rewrite Hg, upsert_idempotent.
  - subst s1 s2. rewrite !run_upsertDocument.
    cbn [snd server Documents console processes limiter].
    by rewrite Hg, upsert_idempotent.
  - subst s1. rewrite run_upsertDocument. cbn [snd server Documents].
    rewrite Hg, upsert_by_own_id by done. apply map_size_insert.
  - subst s1 s2. rewrite !run_upsertDocument.
    cbn [snd server Documents console processes limiter].
    rewrite Hg, upsert_idempotent by done. rewrite upsert_by_own_id by done.
    rewrite lookup_insert_eq. eexists. split; [done|].
    intros k v Hk. by apply set_fields_lookup.
  - intros Hr1.
    destruct (Meteor_call_upsert env1 document s) as [[_ H1]|[Hno _]];
      [|destruct Hr1 as [r Hr]; by destruct (Hno r)].
    destruct (Meteor_call_upsert env2 document g1.2) as [[_ H2]|[_ H2]].
    + fold g1 in H1. fold g2 in H2. rewrite H2, H1, Hg. by apply upsert_idempotent.
    + exact H2.
Qed.

Lemma upsert_twice_is_upsert_once_witness :
  let s1 := (run upsertDocument titled_x env0 init).2 in
  let s2 := (run upsertDocument titled_x env1 s1).2 in
  let g1 := Meteor_call env0 "documents.upsert" titled_x init in
  let g2 := Meteor_call env1 "documents.upsert" titled_x g1.2 in
  s2 = s1 ∧
  size (Documents (server s2)) = size (Documents (server s1)) ∧
  size (Documents (server s1)) = 1%nat ∧
  (∃ d, Documents (server s2) !! "a" = Some d ∧
        ∀ k v, titled_x !! k = Some v → d !! k = Some (Collection.stored v)) ∧
  ((∃ r, g1.1 = Result r) → Documents (server g2.2) = Documents (server g1.2)).
Proof.
  apply (upsert_twice_is_upsert_once titled_x "a" env0 env1 init).
  reflexivity.
Defined.

(** ** Rate limiting *)

Lemma allow_tracked (n c : string) (t : Z) (l : gmap (string * string) RateLimit.Bucket) :
  n = "documents.upsert" ∨ n = "documents.remove" →
  RateLimit.allow rule n c t l =
    let b := RateLimit.current rule t (l !! (n, c)) in
    (bool_decide (S (RateLimit.calls b) ≤ 5)%nat,
     <[(n, c) := {| RateLimit.windowStart := RateLimit.windowStart b;
                    RateLimit.calls := S (RateLimit.calls b) |}]> l).
Proof.
  intros Hn. unfold RateLimit.allow.
  rewrite bool_decide_eq_true_2 by (by apply rule_tracks). reflexivity.
Qed.

Lemma current_live (t : Z) b :
  t - RateLimit.windowStart b < 1000 → RateLimit.current rule t (Some b) = b.
Proof.
  intros H. unfold RateLimit.current, RateLimit.live.
  change (RateLimit.timeRange rule) with 1000.
  by rewrite (proj2 (Z.ltb_lt _ _) H).
Qed.

Lemma current_expired (t : Z) o :
  (∀ b, o = Some b → 1000 ≤ t - RateLimit.windowStart b) →
  RateLimit.current rule t o = {| RateLimit.windowStart := t; RateLimit.calls := 0 |}.
Proof.
  intros H. destruct o as [b|]; [|done]. simpl. unfold RateLimit.live.
  change (RateLimit.timeRange rule) with 1000.
  specialize (H b eq_refl). by rewrite (proj2 (Z.ltb_ge _ _) H).
Qed.

Lemma Meteor_call_rejected env n args s :
  (RateLimit.allow rule n (connection env) (now env) (limiter s)).1 = false →
  Meteor_call env n args s =
    (Failure RateLimitExceeded,
     set_limiter (RateLimit.allow rule n (connection env) (now env) (limiter s)).2 s).
Proof.
  intros H. unfold Meteor_call.
  destruct (RateLimit.allow rule n (connection env) (now env) (limiter s)) as [ok l].
  simpl in H. by rewrite H.
Qed.

Lemma Meteor_call_allowed env n args s :
  (RateLimit.allow rule n (connection env) (now env) (limiter s)).1 = true →
  (Meteor_call env n args s).1 ≠ Failure RateLimitExceeded.
Proof.
  intros H. unfold Meteor_call.
  destruct (RateLimit.allow rule n (connection env) (now env) (limiter s)) as [ok l].
  simpl in H. rewrite H.
  destruct (find_method n) as [m|]; [|done].
  destruct (validate m args); [|done].
  by destruct (run m args env (set_limiter l s)) as [[r|e] s'].
Qed.

(** No method touches the limiter. *)
Lemma run_keeps_limiter m args env s :
  m ∈ methods → limiter (run m args env s).2 = limiter s.
Proof.
  unfold methods. rewrite !elem_of_cons, elem_of_nil.
  intros [->|[->|[->|[->|[]]]]]; try reflexivity.
  - rewrite HLIDocker_run_shared.
    destruct (decide (Collection.count
      (Collection.find "title" (get args "cmd") (Documents (server s))) = 0%nat)) as [Hc|Hc].
    + by rewrite Dispatcher_run_miss.
    + by rewrite Dispatcher_run_hit.
  - rewrite PublicDocker_run_shared.
    destruct (decide (Collection.count
      (Collection.find "title" (get args "cmd") (Documents (server s))) = 0%nat)) as [Hc|Hc].
    + by rewrite Dispatcher_run_miss.
    + by rewrite Dispatcher_run_hit.
Qed.

Lemma find_method_registered n m : find_method n = Some m → m ∈ methods ∧ name m = n.
Proof.
  unfold find_method. intros H. apply find_some in H as [Hin Hn].
  apply bool_decide_eq_true in Hn. split; [|done]. by apply list_elem_of_In.
Qed.

Lemma Meteor_call_limiter env n args s :
  limiter (Meteor_call env n args s).2 =
  (RateLimit.allow rule n (connection env) (now env) (limiter s)).2.
Proof.
  unfold Meteor_call.
  destruct (RateLimit.allow rule n (connection env) (now env) (limiter s)) as [ok l].
  destruct ok; [|done].
  destruct (find_method n) as [m|] eqn:Hm; [|done].
  destruct (validate m args); [|done].
  apply find_method_registered in Hm as [Hin _].
  pose proof (run_keeps_limiter m args env (set_limiter l s) Hin) as Hl.
  by destruct (run m args env (set_limiter l s)) as [[r|e] s'].
Qed.

(** The two rate-limited methods return normally on every valid input. *)
Lemma Meteor_call_tracked_result env m args s :
  m = upsertDocument ∨ m = removeDocument →
  validate m args = true →
  (RateLimit.allow rule (name m) (connection env) (now env) (limiter s)).1 = true →
  ∃ v, (Meteor_call env (name m) args s).1 = Result v.
Proof.
  intros [-> | ->] Hv Ha; unfold Meteor_call.
  - destruct (RateLimit.allow rule (name upsertDocument) (connection env) (now env)
                (limiter s)) as [ok l].
    simpl in Ha. subst ok.
    change (find_method (name upsertDocument)) with (Some upsertDocument).
    cbv iota. rewrite Hv. eexists. reflexivity.
  - destruct (RateLimit.allow rule (name removeDocument) (connection env) (now env)
                (limiter s)) as [ok l].
    simpl in Ha. subst ok.
    change (find_method (name removeDocument)) with (Some removeDocument).
    cbv iota. rewrite Hv. eexists. reflexivity.
Qed.

Lemma call_in_window env n args s t0 k :
  n = "documents.upsert" ∨ n = "documents.remove" →
  in_window n (connection env) t0 k s →
  now env - t0 < 1000 →
  in_window n (connection env) t0 (S k) (Meteor_call env n args s).2 ∧
  (RateLimit.allow rule n (connection env) (now env) (limiter s)).1 = bool_decide (S k ≤ 5)%nat.
Proof.
  intros Hn Hw Ht. unfold in_window in *.
  rewrite Meteor_call_limiter, allow_tracked by done.
  rewrite Hw, current_live by done. cbn.
  by rewrite lookup_insert_eq.
Qed.

Lemma call_opens_window env n args s :
  n = "documents.upsert" ∨ n = "documents.remove" →
  (∀ b, limiter s !! (n, connection env) = Some b → 1000 ≤ now env - RateLimit.windowStart b) →
  in_window n (connection env) (now env) 1 (Meteor_call env n args s).2 ∧
  (RateLimit.allow rule n (connection env) (now env) (limiter s)).1 = true.
Proof.
  intros Hn Hw. unfold in_window.
  rewrite Meteor_call_limiter, allow_tracked by done.
  rewrite current_expired by done. cbn.
  by rewrite lookup_insert_eq.
Qed.

Lemma Meteor_calls_in_window m c t0 calls :
  m = upsertDocument ∨ m = removeDocument →
  ∀ k s,
    in_window (name m) c t0 k s →
    Forall (λ ea : Env * object,
              connection ea.1 = c ∧ now ea.1 - t0 < 1000 ∧ validate m ea.2 = true) calls →
    (k + length calls ≤ 5)%nat →
    Forall (λ r, ∃ v, r = Result v) (Meteor_calls (name m) calls s).1 ∧
    in_window (name m) c t0 (k + length calls) (Meteor_calls (name m) calls s).2.
Proof.
  intros Hm.
  assert (Hn : name m = "documents.upsert" ∨ name m = "documents.remove")
    by (destruct Hm as [-> | ->]; auto).
  induction calls as [|[env args] rest IH]; intros k s Hw Hall Hk.
  - simpl. rewrite Nat.add_0_r. by split.
  - apply Forall_cons in Hall as [(Hc & Ht & Hv) Hrest]. simpl in *. subst c.
    destruct (call_in_window env (name m) args s t0 k Hn Hw Ht) as [Hw' Ha].
    rewrite bool_decide_eq_true_2 in Ha by lia.
    destruct (Meteor_call_tracked_result env m args s Hm Hv Ha) as [v Hr].
    destruct (Meteor_call env (name m) args s) as [r s1]. simpl in *.
    destruct (IH (S k) s1 Hw' Hrest ltac:(lia)) as [Hrs Hw''].
    destruct (Meteor_calls (name m) rest s1) as [rs s2]. simpl in *.
    split; [constructor; eauto|]. by rewrite <- Nat.add_succ_comm.
Qed.

Lemma Meteor_calls_length n calls s :
  length (Meteor_calls n calls s).1 = length calls.
Proof.
  revert s. induction calls as [|[env args] rest IH]; intros s; [done|].
  simpl. destruct (Meteor_call env n args s) as [r s1].
  specialize (IH s1). destruct (Meteor_calls n rest s1) as [rs s2].
  simpl in *. by rewrite IH.
Qed.

(** C8. With the rule registered by the code (limit 5, timeRange 1000): for
    a rate-limited method and one caller, when the first of five valid
    calls opens the window and the other four fall within 1000 ms of it,
    all five return a result; a sixth call within the same 1000 ms fails
    with RateLimitExceeded and changes neither the Documents nor the
    processes; a valid call made 1000 ms or more after the window opened
    returns a result again. *)
Theorem rate_limit_boundary m c s e1 a1 rest e6 a6 e7 a7 :
  m = upsertDocument ∨ m = removeDocument →
  length rest = 4%nat →
  connection e1 = c →
  validate m a1 = true →
  (∀ b, limiter s !! (name m, c) = Some b → 1000 ≤ now e1 - RateLimit.windowStart b) →
  Forall (λ ea : Env * object,
            connection ea.1 = c ∧ now ea.1 - now e1 < 1000 ∧ validate m ea.2 = true) rest →
  connection e6 = c →
  now e6 - now e1 < 1000 →
  connection e7 = c →
  1000 ≤ now e7 - now e1 →
  validate m a7 = true →
  let five := Meteor_calls (name m) ((e1, a1) :: rest) s in
  let sixth := Meteor_call e6 (name m) a6 five.2 in
  let later := Meteor_call e7 (name m) a7 sixth.2 in
  length five.1 = 5%nat ∧
  Forall (λ r, ∃ v, r = Result v) five.1 ∧
  sixth.1 = Failure RateLimitExceeded ∧
  server sixth.2 = server five.2 ∧
  processes sixth.2 = processes five.2 ∧
  ∃ v, later.1 = Result v.
Proof.
  intros Hm Hlen Hc1 Hv1 Hfresh Hrest Hc6 Ht6 Hc7 Ht7 Hv7 five sixth later.
  assert (Hn : name m = "documents.upsert" ∨ name m = "documents.remove")
    by (destruct Hm as [-> | ->]; auto).
  subst c.
  split; [subst five; rewrite Meteor_calls_length; simpl; lia|].
  (* the first call opens the window *)
  destruct (call_opens_window e1 (name m) a1 s Hn Hfresh) as [Hw1 Ha1].
  destruct (Meteor_call_tracked_result e1 m a1 s Hm Hv1 Ha1) as [v1 Hr1].
  (* the other four fall into it *)
  pose proof (Meteor_calls_in_window m (connection e1) (now e1) rest Hm 1
                (Meteor_call e1 (name m) a1 s).2 Hw1 Hrest ltac:(lia)) as [Hrs Hw5].
  rewrite Hlen in Hw5. simpl in Hw5.
  assert (Hfive : five = (((Meteor_call e1 (name m) a1 s).1
                            :: (Meteor_calls (name m) rest (Meteor_call e1 (name m) a1 s).2).1),
                          (Meteor_calls (name m) rest (Meteor_call e1 (name m) a1 s).2).2)).
  { subst five. simpl. destruct (Meteor_call e1 (name m) a1 s) as [r1 s1]. simpl.
    by destruct (Meteor_calls (name m) rest s1) as [rs s5]. }
  assert (Hw5' : in_window (name m) (connection e6) (now e1) 5 five.2)
    by (rewrite Hfive, Hc6; exact Hw5).
  split; [rewrite Hfive; constructor; eauto|].
  (* the sixth call is over the cap *)
  destruct (call_in_window e6 (name m) a6 five.2 (now e1) 5 Hn Hw5' Ht6) as [Hw6 Ha6].
  rewrite bool_decide_eq_false_2 in Ha6 by lia.
  pose proof (Meteor_call_rejected e6 (name m) a6 five.2 Ha6) as Hsixth.
  fold sixth in Hsixth, Hw6.
  split; [by rewrite Hsixth|]. split; [by rewrite Hsixth|]. split; [by rewrite Hsixth|].
  (* the window has elapsed *)
  apply (Meteor_call_tracked_result e7 m a7 sixth.2 Hm Hv7).
  apply (call_opens_window e7 (name m) a7 sixth.2 Hn).
  intros b Hb. unfold in_window in Hw6. rewrite Hc7, <- Hc6, Hw6 in Hb.
  injection Hb as <-. simpl. lia.
Qed.

Lemma rate_limit_boundary_witness :
  let five := Meteor_calls "documents.upsert"
                [(at_time 0, titled_x); (at_time 100, titled_x); (at_time 200, titled_x);
                 (at_time 300, titled_x); (at_time 400, titled_x)] init in
  let sixth := Meteor_call (at_time 999) "documents.upsert" titled_x five.2 in
  let later := Meteor_call (at_time 1000) "documents.upsert" titled_x sixth.2 in
  length five.1 = 5%nat ∧
  Forall (λ r, ∃ v, r = Result v) five.1 ∧
  sixth.1 = Failure RateLimitExceeded ∧
  server sixth.2 = server five.2 ∧
  processes sixth.2 = processes five.2 ∧
  ∃ v, later.1 = Result v.
Proof.
  apply (rate_limit_boundary upsertDocument "conn" init (at_time 0) titled_x
           [(at_time 100, titled_x); (at_time 200, titled_x);
            (at_time 300, titled_x); (at_time 400, titled_x)]
           (at_time 999) titled_x (at_time 1000) titled_x).
  - left. reflexivity.
  - reflexivity.
  - reflexivity.
  - reflexivity.
  - intros b Hb. vm_compute in Hb. discriminate.
  - repeat constructor; simpl; lia.
  - reflexivity.
  - simpl. lia.
  - reflexivity.
  - simpl. lia.
  - reflexivity.
Defined.

(** C3, as stated, fails: after five docker.hli calls from one connection
    within one window, a sixth is not refused but forwarded (a sixth process
    is started), and likewise for docker.public. *)
Lemma sixth_dispatch_not_rejected :
  length (processes (after_five "docker.hli")) = 5%nat ∧
  (Meteor_call env0 "docker.hli" (burst_args "f") (after_five "docker.hli")).1
    = Result RUndefined ∧
  length (processes (Meteor_call env0 "docker.hli" (burst_args "f")
                       (after_five "docker.hli")).2) = 6%nat ∧
  (Meteor_call env0 "docker.public" (burst_args "f") (after_five "docker.public")).1
    = Result RUndefined ∧
  length (processes (Meteor_call env0 "docker.public" (burst_args "f")
                       (after_five "docker.public")).2) = 6%nat.
Proof. repeat split; vm_compute; reflexivity. Qed.

(** C3 (amended). The rule registered by the code names documents.upsert and
    documents.remove: a call to one of them whose caller already has five
    calls counted in the live window fails with RateLimitExceeded and
    reaches neither the Documents nor exec.  docker.hli and docker.public
    are not named by the rule and are never refused by the limiter, and
    neither is the read-only lookup. *)
Theorem rate_limiter_coverage env args s :
  (∀ n b,
     n = "documents.upsert" ∨ n = "documents.remove" →
     limiter s !! (n, connection env) = Some b →
     now env - RateLimit.windowStart b < 1000 →
     (5 ≤ RateLimit.calls b)%nat →
     (Meteor_call env n args s).1 = Failure RateLimitExceeded ∧
     server (Meteor_call env n args s).2 = server s ∧
     processes (Meteor_call env n args s).2 = processes s) ∧
  (∀ n,
     n = "docker.hli" ∨ n = "docker.public" →
     (Meteor_call env n args s).1 ≠ Failure RateLimitExceeded ∧
     limiter (Meteor_call env n args s).2 = limiter s) ∧
  (∀ _id,
     Meteor_view env _id s = (Found (Collection.findOne _id (Documents (server s))), s)).
Proof.
  split; [|split].
  - intros n b Hn Hb Ht Hk.
    assert (Ha : (RateLimit.allow rule n (connection env) (now env) (limiter s)).1 = false).
    { rewrite allow_tracked, Hb, current_live by done. cbn.
      apply bool_decide_eq_false_2. lia. }
    by rewrite (Meteor_call_rejected _ _ _ _ Ha).
  - intros n Hn.
    assert (Ha : RateLimit.allow rule n (connection env) (now env) (limiter s)
                 = (true, limiter s))
      by (destruct Hn as [-> | ->]; by apply allow_untracked).
    split.
    + apply Meteor_call_allowed. by rewrite Ha.
    + by rewrite Meteor_call_limiter, Ha.
  - intros _id. unfold Meteor_view.
    rewrite allow_untracked by done. by rewrite set_limiter_id.
Qed.

Lemma rate_limiter_coverage_witness :
  (Meteor_call env0 "documents.upsert" (burst_args "f") (after_five "documents.upsert")).1
    = Failure RateLimitExceeded ∧
  server (Meteor_call env0 "documents.upsert" (burst_args "f")
            (after_five "documents.upsert")).2 = server (after_five "documents.upsert") ∧
  processes (Meteor_call env0 "documents.upsert" (burst_args "f")
               (after_five "documents.upsert")).2 = processes (after_five "documents.upsert").
Proof.
  eapply (proj1 (rate_limiter_coverage env0 (burst_args "f") (after_five "documents.upsert"))
            "documents.upsert").
  - left. reflexivity.
  - vm_compute. reflexivity.
  - vm_compute. reflexivity.
  - vm_compute. lia.
Defined.

(** ** Reachable states and the one-Record-per-command invariant *)

(** C6, as stated, fails: two documents.upsert calls leave two Records with
    the same title, both with output. *)
Lemma upsert_duplicates_title :
  let c := Documents (server (perform_all [upsert_op "a" "x" "out"; upsert_op "b" "x" "out"] init)) in
  ∃ di dj,
    c !! "a" = Some di ∧ c !! "b" = Some dj ∧ "a" ≠ "b" ∧
    di !! "title" = Some (Str "x") ∧ dj !! "title" = Some (Str "x") ∧
    has_output di ∧ has_output dj.
Proof.
  exists {[ "_id" := Str "a"; "title" := Str "x"; "body" := Str "out" ]},
         {[ "_id" := Str "b"; "title" := Str "x"; "body" := Str "out" ]}.
  split; [vm_compute; reflexivity|]. split; [vm_compute; reflexivity|].
  split; [discriminate|]. split; [reflexivity|]. split; [reflexivity|].
  split; (exists "out"; split; [reflexivity|discriminate]).
Qed.

Lemma unique_titles_empty : unique_titles ∅.
Proof. intros cmd i j di dj Hi. by rewrite lookup_empty in Hi. Qed.

Lemma unique_titles_delete c i : unique_titles c → unique_titles (delete i c).
Proof.
  intros Hu cmd j k dj dk Hj Hk.
  apply lookup_delete_Some in Hj as [_ Hj]. apply lookup_delete_Some in Hk as [_ Hk].
  by apply (Hu cmd j k dj dk).
Qed.

Lemma unique_titles_remove sel c : unique_titles c → unique_titles (Collection.remove sel c).
Proof. destruct sel; simpl; auto using unique_titles_delete. Qed.

(** Writing a Record whose title no Record matches yet keeps titles unique,
    also when the key is already taken. *)
Lemma unique_titles_insert_fresh_title c k v0 (d : object) :
  unique_titles c →
  d !! "title" = Some (Collection.stored v0) →
  (∀ i di, c !! i = Some di → Collection.field_is "title" v0 di = false) →
  unique_titles (<[k := d]> c).
Proof.
  intros Hu Hd Hnone cmd i j di dj Hi Hj Hti Htj.
  assert (Hclash : ∀ l dl, l ≠ k → c !! l = Some dl → d !! "title" = Some (Str cmd) →
                           dl !! "title" = Some (Str cmd) → False).
  { intros l dl Hl Hcl Hdt Hlt. rewrite Hd in Hdt. injection Hdt as Hv0.
    pose proof (Hnone l dl Hcl) as Hf.
    rewrite (field_is_ext "title" (Str cmd) v0 dl) in Hf by done.
    apply field_is_Str in Hlt. congruence. }
  destruct (decide (i = k)) as [->|Hik]; destruct (decide (j = k)) as [->|Hjk]; [done|..].
  - rewrite lookup_insert_eq in Hi. injection Hi as <-.
    rewrite lookup_insert_ne in Hj by done. destruct (Hclash j dj); auto.
  - rewrite lookup_insert_eq in Hj. injection Hj as <-.
    rewrite lookup_insert_ne in Hi by done. destruct (Hclash i di); auto.
  - rewrite lookup_insert_ne in Hi, Hj by done. by apply (Hu cmd i j di dj).
Qed.

(** Rewriting a Record without touching its title keeps titles unique. *)
Lemma unique_titles_insert_same_title c k (d : object) :
  unique_titles c →
  d !! "title" = default ∅ (c !! k) !! "title" →
  unique_titles (<[k := d]> c).
Proof.
  intros Hu Hd cmd i j di dj Hi Hj Hti Htj.
  assert (Hold : d !! "title" = Some (Str cmd) →
                 ∃ dk, c !! k = Some dk ∧ dk !! "title" = Some (Str cmd)).
  { intros Hdt. rewrite Hd in Hdt. destruct (c !! k) as [dk|]; [by exists dk|].
    simpl in Hdt. by rewrite lookup_empty in Hdt. }
  destruct (decide (i = k)) as [->|Hik]; destruct (decide (j = k)) as [->|Hjk]; [done|..].
  - rewrite lookup_insert_eq in Hi. injection Hi as <-.
    rewrite lookup_insert_ne in Hj by done.
    destruct (Hold Hti) as (dk & Hk & Hkt). by apply (Hu cmd k j dk dj).
  - rewrite lookup_insert_eq in Hj. injection Hj as <-.
    rewrite lookup_insert_ne in Hi by done.
    destruct (Hold Htj) as (dk & Hk & Hkt). by apply (Hu cmd i k di dk).
  - rewrite lookup_insert_ne in Hi, Hj by done. by apply (Hu cmd i j di dj).
Qed.

Lemma unique_titles_upsert_no_title sel fields fresh c :
  fields !! "title" = None →
  unique_titles c →
  unique_titles (Collection.upsert sel fields fresh c).
Proof.
  intros Hf Hu. unfold Collection.upsert.
  apply unique_titles_insert_same_title; [done|].
  rewrite lookup_insert_ne by done. unfold Collection.set_fields.
  apply lookup_union_r. by rewrite lookup_fmap, Hf.
Qed.

(** What a call that is no dispatch does to the Documents: nothing, a
    remove, or (documents.upsert) an upsert of its arguments; it starts no
    process. *)
Lemma Meteor_call_not_dispatch env n args s :
  n ≠ "docker.hli" → n ≠ "docker.public" →
  processes (Meteor_call env n args s).2 = processes s ∧
  (Documents (server (Meteor_call env n args s).2) = Documents (server s) ∨
   (∃ sel, Documents (server (Meteor_call env n args s).2) =
           Collection.remove sel (Documents (server s))) ∨
   (n = "documents.upsert" ∧
    ∃ sel fresh, Documents (server (Meteor_call env n args s).2) =
                 Collection.upsert sel args fresh (Documents (server s)))).
Proof.
  intros H2 H3. unfold Meteor_call.
  destruct (RateLimit.allow rule n (connection env) (now env) (limiter s)) as [ok l].
  destruct ok; [|by split; [|left]].
  destruct (find_method n) as [m|] eqn:Hm; [|by split; [|left]].
  destruct (validate m args); [|by split; [|left]].
  apply find_method_registered in Hm as [Hin Hn]. revert Hin Hn.
  unfold methods. rewrite !elem_of_cons, elem_of_nil.
  intros [->|[->|[->|[->|[]]]]] Hn; simpl in Hn; try congruence.
  - split; [reflexivity|]. right. right. split; [done|].
    by exists (get args "_id"), (randomId env).
  - split; [reflexivity|]. right. left. by exists (get args "_id").
Qed.

Lemma call_to_completion_not_dispatch env n args env' r s :
  n ≠ "docker.hli" → n ≠ "docker.public" →
  call_to_completion env n args env' r s = (Meteor_call env n args s).2.
Proof.
  intros H2 H3. unfold call_to_completion.
  destruct (Meteor_call_not_dispatch env n args s H2 H3) as [Hp _].
  destruct (Meteor_call env n args s) as [resp s1]. simpl in *.
  rewrite Hp. rewrite bool_decide_eq_false_2; [done|lia].
Qed.

Lemma dispatch_keeps_unique_titles n prefix env args env' r s :
  dispatch_method n prefix →
  unique_titles (Documents (server s)) →
  unique_titles (Documents (server (call_to_completion env n args env' r s))).
Proof.
  intros Hn Hu.
  destruct (validator dispatch_schema args) eqn:Hv;
    [|by rewrite (call_to_completion_invalid _ _ _ _ _ _ _ Hn Hv)].
  destruct (decide (Collection.count
    (Collection.find "title" (get args "cmd") (Documents (server s))) = 0%nat)) as [Hc|Hc];
    [|by rewrite (call_to_completion_hit _ _ _ _ _ _ _ Hn Hc)].
  rewrite (call_to_completion_miss _ _ _ _ _ _ _ Hn Hv Hc). cbn [server].
  destruct (decide (stdout r ≠ "" ∨ err r ≠ None)) as [Hp|Hp].
  - rewrite Dispatcher_callback_persists by done. cbn [snd Documents].
    unfold Collection.upsert. simpl.
    apply (unique_titles_insert_fresh_title _ _ (get args "cmd")); [done| |].
    + apply output_record_fields.
    + by apply count_find_zero.
  - destruct (err r) as [e|] eqn:He; [destruct Hp; right; done|].
    destruct (stdout r) as [|c t] eqn:Ho; [|destruct Hp; left; done].
    by rewrite Dispatcher_callback_throws.
Qed.

Lemma perform_keeps_unique_titles op s :
  sets_no_title op →
  unique_titles (Documents (server s)) →
  unique_titles (Documents (server (perform s op))).
Proof.
  intros Hop Hu. unfold perform.
  destruct (decide (op_method op = "docker.hli")) as [->|H2];
    [by apply (dispatch_keeps_unique_titles _ _ _ _ _ _ _ dispatch_hli)|].
  destruct (decide (op_method op = "docker.public")) as [->|H3];
    [by apply (dispatch_keeps_unique_titles _ _ _ _ _ _ _ dispatch_public)|].
  rewrite call_to_completion_not_dispatch by done.
  destruct (Meteor_call_not_dispatch (op_env op) (op_method op) (op_args op) s H2 H3)
    as [_ [-> | [[sel ->] | [Hup (sel & fresh & ->)]]]]; [done| |].
  - by apply unique_titles_remove.
  - apply unique_titles_upsert_no_title; [by apply Hop|done].
Qed.

Lemma perform_all_keeps_unique_titles ops s :
  Forall sets_no_title ops →
  unique_titles (Documents (server s)) →
  unique_titles (Documents (server (perform_all ops s))).
Proof.
  unfold perform_all. revert s.
  induction ops as [|op ops IH]; intros s Hall Hu; [done|].
  apply Forall_cons in Hall as [Hop Hall]. simpl.
  apply IH; [done|]. by apply perform_keeps_unique_titles.
Qed.

(** C6 (amended). In every state reached from the empty server by a sequence
    of completed gateway operations in which no documents.upsert sets a
    title (documents.upsert without title, documents.remove, docker.hli and
    docker.public run to completion one after the other), each command
    string is the title of at most one Record, hence of at most one Record
    with output. *)
Theorem one_record_per_command ops :
  Forall sets_no_title ops →
  let c := Documents (server (perform_all ops init)) in
  ∀ cmd i j di dj,
    c !! i = Some di → c !! j = Some dj →
    di !! "title" = Some (Str cmd) → dj !! "title" = Some (Str cmd) →
    i = j.
Proof.
  intros Hall c.
  apply (perform_all_keeps_unique_titles ops init Hall unique_titles_empty).
Qed.

Lemma one_record_per_command_witness :
  let c := Documents (server (perform_all scenario_ops init)) in
  let d := <["_id" := Str "id2"]>
             (output_literal (Str "echo hi")
                (JSON.stringify_error "Error: Command failed: docker")
                "Unable to find image" 40) in
  Forall sets_no_title scenario_ops ∧
  c !! "id2" = Some d ∧
  d !! "title" = Some (Str "echo hi") ∧
  "id2" = "id2".
Proof.
  assert (Hops : Forall sets_no_title scenario_ops)
    by (repeat constructor; intros H; vm_compute in H; try discriminate; reflexivity).
  assert (Hc : Documents (server (perform_all scenario_ops init)) !! "id2" =
               Some (<["_id" := Str "id2"]>
                       (output_literal (Str "echo hi")
                          (JSON.stringify_error "Error: Command failed: docker")
                          "Unable to find image" 40)))
    by (vm_compute; reflexivity).
  split; [exact Hops|]. split; [exact Hc|]. split; [reflexivity|].
  exact (one_record_per_command scenario_ops Hops "echo hi" "id2" "id2" _ _
           Hc Hc eq_refl eq_refl).
Defined.

(** * Further properties of the methods and of the form *)

(** ** documents.remove and documents.upsert *)

Lemma run_removeDocument document env s :
  run removeDocument document env s =
    (Normal RUndefined,
     {| server :=
          {| Documents := Collection.remove (get document "_id") (Documents (server s));
             console := console (server s) |};
        processes := processes s;
        limiter := limiter s |}).
Proof. reflexivity. Qed.

Lemma get_Str (o : object) k v : o !! k = Some v → get o k = v.
Proof. intros H. unfold get. by rewrite H. Qed.

Lemma get_absent (o : object) k : o !! k = None → get o k = Undefined.
Proof. intros H. unfold get. by rewrite H. Qed.

(** X1. documents.remove with an _id deletes the Record under that id and
    nothing else: every other Record, the console, the processes and the
    limiter stay as they were, the method returns undefined and never
    throws, and when no Record has that id the state is unchanged. *)
Theorem remove_deletes_one_record document i env s :
  document !! "_id" = Some (Str i) →
  let out := run removeDocument document env s in
  out.1 = Normal RUndefined ∧
  Documents (server out.2) !! i = None ∧
  (∀ j, j ≠ i → Documents (server out.2) !! j = Documents (server s) !! j) ∧
  size (Documents (server out.2)) =
    (match Documents (server s) !! i with Some _ => pred | None => id end)
      (size (Documents (server s))) ∧
  console (server out.2) = console (server s) ∧
  processes out.2 = processes s ∧
  limiter out.2 = limiter s ∧
  (Documents (server s) !! i = None → out.2 = s).
Proof.
  intros Hid out. subst out. rewrite run_removeDocument.
  rewrite (get_Str _ _ _ Hid). cbn [fst snd server Documents console processes limiter].
  unfold Collection.remove.
  split; [done|]. split; [apply lookup_delete_eq|].
  split; [intros j Hj; by apply lookup_delete_ne|].
  split; [apply map_size_delete|].
  split; [done|]. split; [done|]. split; [done|].
  intros Hno. rewrite delete_id by done. by destruct s as [[d c] p l].
Qed.

Lemma remove_deletes_one_record_witness :
  let out := run removeDocument {[ "_id" := Str "id2" ]} env2 after_echo in
  out.1 = Normal RUndefined ∧
  Documents (server out.2) !! "id2" = None ∧
  (∀ j, j ≠ "id2" → Documents (server out.2) !! j = Documents (server after_echo) !! j) ∧
  size (Documents (server out.2)) =
    (match Documents (server after_echo) !! "id2" with Some _ => pred | None => id end)
      (size (Documents (server after_echo))) ∧
  console (server out.2) = console (server after_echo) ∧
  processes out.2 = processes after_echo ∧
  limiter out.2 = limiter after_echo ∧
  (Documents (server after_echo) !! "id2" = None → out.2 = after_echo).
Proof.
  apply (remove_deletes_one_record {[ "_id" := Str "id2" ]} "id2" env2 after_echo).
  reflexivity.
Defined.

(** X2. documents.upsert with an _id writes exactly the properties of the
    document into the Record under that id: every listed property is
    replaced, every property the document does not list keeps the value it
    had, and no other Record, nor the console, the processes or the
    limiter, changes.  The result carries insertedId exactly when the id
    was new. *)
Theorem upsert_overwrites_listed_fields document i env s :
  document !! "_id" = Some (Str i) →
  let out := run upsertDocument document env s in
  let old := default ∅ (Documents (server s) !! i) in
  out.1 = Normal (RUpsert 1 (match Documents (server s) !! i with
                             | Some _ => None
                             | None => Some i
                             end)) ∧
  (∃ d, Documents (server out.2) !! i = Some d ∧
        ∀ k, d !! k = match document !! k with
                      | Some v => Some (Collection.stored v)
                      | None => old !! k
                      end) ∧
  (∀ j, j ≠ i → Documents (server out.2) !! j = Documents (server s) !! j) ∧
  console (server out.2) = console (server s) ∧
  processes out.2 = processes s ∧
  limiter out.2 = limiter s.
Proof.
  intros Hid out old. subst out old. rewrite run_upsertDocument.
  rewrite (get_Str _ _ _ Hid). cbn [fst snd server Documents console processes limiter].
  cbn [Collection.upsert_key].
  split; [by destruct (Documents (server s) !! i)|].
  rewrite upsert_by_own_id by done.
  split.
  - rewrite lookup_insert_eq. eexists. split; [reflexivity|].
    intros k. unfold Collection.set_fields. rewrite lookup_union, lookup_fmap.
    destruct (document !! k) as [v|]; simpl.
    + by destruct (default ∅ (Documents (server s) !! i) !! k).
    + by destruct (default ∅ (Documents (server s) !! i) !! k).
  - split; [intros j Hj; by rewrite lookup_insert_ne|]. done.
Qed.

Lemma upsert_overwrites_listed_fields_witness :
  let out := run upsertDocument {[ "_id" := Str "id2"; "body" := Str "edited" ]} env2 after_echo in
  let old := default ∅ (Documents (server after_echo) !! "id2") in
  out.1 = Normal (RUpsert 1 (match Documents (server after_echo) !! "id2" with
                             | Some _ => None
                             | None => Some "id2"
                             end)) ∧
  (∃ d, Documents (server out.2) !! "id2" = Some d ∧
        ∀ k, d !! k = match ({[ "_id" := Str "id2"; "body" := Str "edited" ]} : object) !! k with
                      | Some v => Some (Collection.stored v)
                      | None => old !! k
                      end) ∧
  (∀ j, j ≠ "id2" → Documents (server out.2) !! j = Documents (server after_echo) !! j) ∧
  console (server out.2) = console (server after_echo) ∧
  processes out.2 = processes after_echo ∧
  limiter out.2 = limiter after_echo.
Proof.
  apply (upsert_overwrites_listed_fields {[ "_id" := Str "id2"; "body" := Str "edited" ]}
           "id2" env2 after_echo).
  reflexivity.
Defined.

(** X3. documents.upsert without an _id is not idempotent: each call writes
    the document under the id drawn for it, so two identical calls whose
    drawn ids are new and distinct add two Records, each holding the
    properties of the document and its own _id. *)
Theorem upsert_without_id_adds_records document env1 env2 s :
  document !! "_id" = None →
  Documents (server s) !! randomId env1 = None →
  Documents (server s) !! randomId env2 = None →
  randomId env1 ≠ randomId env2 →
  let s1 := (run upsertDocument document env1 s).2 in
  let s2 := (run upsertDocument document env2 s1).2 in
  (run upsertDocument document env1 s).1 = Normal (RUpsert 1 (Some (randomId env1))) ∧
  (run upsertDocument document env2 s1).1 = Normal (RUpsert 1 (Some (randomId env2))) ∧
  size (Documents (server s2)) = S (S (size (Documents (server s)))) ∧
  Documents (server s2) !! randomId env1 =
    Some (<["_id" := Str (randomId env1)]> (Collection.stored <$> document)) ∧
  Documents (server s2) !! randomId env2 =
    Some (<["_id" := Str (randomId env2)]> (Collection.stored <$> document)).
Proof.
  intros Hid H1 H2 Hne s1 s2. subst s1 s2. rewrite !run_upsertDocument.
  rewrite (get_absent _ _ Hid). cbn [fst snd server Documents console processes limiter].
  unfold Collection.upsert. cbn [Collection.upsert_key].
  rewrite H1. rewrite lookup_insert_ne by done. rewrite H2. cbn [default].
  unfold Collection.set_fields. rewrite (right_id_L ∅ (∪)).
  split; [done|]. split; [done|]. split.
  - rewrite !map_size_insert_None; [done|done|by rewrite lookup_insert_ne].
  - split; [by rewrite lookup_insert_ne, lookup_insert_eq|by rewrite lookup_insert_eq].
Qed.

Lemma upsert_without_id_adds_records_witness :
  let s1 := (run upsertDocument untitled env0 init).2 in
  let s2 := (run upsertDocument untitled env1 s1).2 in
  (run upsertDocument untitled env0 init).1 = Normal (RUpsert 1 (Some "id1")) ∧
  (run upsertDocument untitled env1 s1).1 = Normal (RUpsert 1 (Some "id2")) ∧
  size (Documents (server s2)) = 2%nat ∧
  Documents (server s2) !! "id1" =
    Some (<["_id" := Str "id1"]> (Collection.stored <$> untitled)) ∧
  Documents (server s2) !! "id2" =
    Some (<["_id" := Str "id2"]> (Collection.stored <$> untitled)).
Proof.
  apply (upsert_without_id_adds_records untitled env0 env1 init).
  - reflexivity.
  - reflexivity.
  - reflexivity.
  - discriminate.
Defined.

(** X4. documents.remove undoes a documents.upsert that created its Record:
    when no Record had the id, upsert followed by remove of that id gives
    back the state before the upsert. *)
Theorem remove_undoes_new_upsert document i env env' s :
  document !! "_id" = Some (Str i) →
  Documents (server s) !! i = None →
  (run removeDocument {[ "_id" := Str i ]} env'
     (run upsertDocument document env s).2).2 = s.
Proof.
  intros Hid Hno. rewrite run_removeDocument, run_upsertDocument.
  rewrite (get_Str _ _ _ Hid). cbn [fst snd server Documents console processes limiter].
  rewrite upsert_by_own_id by done.
  change (get ({[ "_id" := Str i ]} : object) "_id") with (default Undefined
    (({[ "_id" := Str i ]} : object) !! "_id")).
  rewrite lookup_singleton_eq. cbn [default id Collection.remove].
  rewrite delete_insert_id by done. by destruct s as [[d c] p l].
Qed.

Lemma remove_undoes_new_upsert_witness :
  (run removeDocument {[ "_id" := Str "a" ]} env1
     (run upsertDocument titled_x env0 after_echo).2).2 = after_echo.
Proof.
  apply (remove_undoes_new_upsert titled_x "a" env0 env1 after_echo).
  - reflexivity.
  - vm_compute. reflexivity.
Defined.

(** ** docker.hli and docker.public: the call *)

Lemma dispatch_method_run m :
  m = HLIDocker ∨ m = PublicDocker →
  ∃ n prefix,
    dispatch_method n prefix ∧ name m = n ∧ run m = Dispatcher_run prefix ∧
    (m = HLIDocker ∧ prefix = "docker run --rm tanghaibao/tredparse" ∨
     m = PublicDocker ∧ prefix = "docker run --rm tanghaibao/tredparse-public").
Proof.
  intros [-> | ->].
  - exists "docker.hli", hli_prefix. split; [constructor|]. split; [done|]. split; [done|].
    by left.
  - exists "docker.public", public_prefix. split; [constructor|]. split; [done|].
    split; [done|]. by right.
Qed.

Lemma no_title_count c (docs : gmap string object) :
  (∀ i d, docs !! i = Some d → d !! "title" ≠ Some (Str c)) →
  Collection.count (Collection.find "title" (Str c) docs) = 0%nat.
Proof.
  intros H. apply count_find_zero. intros i d Hi.
  apply not_true_is_false. rewrite field_is_Str. by apply (H i d).
Qed.

(** X5. A dispatch call is fire-and-forget: the run of docker.hli or
    docker.public never throws and never writes; it leaves the Documents,
    the console and the limiter as they were, and either returns null and
    starts nothing or returns undefined and hands exactly one process, with
    maxBuffer 1024 * 1000, to exec. *)
Theorem dispatch_run_writes_nothing m document env s :
  m = HLIDocker ∨ m = PublicDocker →
  let out := run m document env s in
  server out.2 = server s ∧
  limiter out.2 = limiter s ∧
  (out.1 = Normal RNull ∧ processes out.2 = processes s ∨
   out.1 = Normal RUndefined ∧
   ∃ p, processes out.2 = processes s ++ [p] ∧ maxBuffer p = 1024 * 1000).
Proof.
  intros Hm out. subst out.
  destruct (dispatch_method_run m Hm) as (n & prefix & _ & _ & -> & _).
  destruct (decide (Collection.count
    (Collection.find "title" (get document "cmd") (Documents (server s))) = 0%nat)) as [Hc|Hc].
  - rewrite Dispatcher_run_miss by done. cbn [fst snd server limiter processes].
    split; [done|]. split; [done|]. right. split; [done|]. by eexists.
  - rewrite Dispatcher_run_hit by done. cbn [fst snd].
    split; [done|]. split; [done|]. by left.
Qed.

Lemma dispatch_run_writes_nothing_witness :
  let out := run PublicDocker echo_hi env2 after_echo in
  server out.2 = server after_echo ∧
  limiter out.2 = limiter after_echo ∧
  (out.1 = Normal RNull ∧ processes out.2 = processes after_echo ∨
   out.1 = Normal RUndefined ∧
   ∃ p, processes out.2 = processes after_echo ++ [p] ∧ maxBuffer p = 1024 * 1000).
Proof.
  apply (dispatch_run_writes_nothing PublicDocker echo_hi env2 after_echo).
  right. reflexivity.
Defined.

Lemma started_by_prefix m document env s p :
  m = HLIDocker ∨ m = PublicDocker →
  started_by m document env s p →
  ∃ prefix,
    (m = HLIDocker ∧ prefix = "docker run --rm tanghaibao/tredparse" ∨
     m = PublicDocker ∧ prefix = "docker run --rm tanghaibao/tredparse-public") ∧
    p = spawned prefix document.
Proof.
  unfold started_by. intros Hm Hp.
  destruct (dispatch_method_run m Hm) as (n & prefix & _ & _ & Hrun & Hpre).
  exists prefix. split; [done|]. rewrite Hrun in Hp.
  destruct (decide (Collection.count
    (Collection.find "title" (get document "cmd") (Documents (server s))) = 0%nat)) as [Hc|Hc].
  - rewrite Dispatcher_run_miss in Hp by done. cbn [snd processes] in Hp.
    apply app_inv_head in Hp. by injection Hp as <-.
  - rewrite Dispatcher_run_hit in Hp by done. cbn [snd] in Hp.
    apply (f_equal length) in Hp. rewrite length_app in Hp. simpl in Hp. lia.
Qed.

(** The schema of the dispatch methods has no required key: it accepts the
    documents whose properties are among _id and cmd and are strings, null
    or undefined. *)
Lemma validator_dispatch_schema document :
  validator dispatch_schema document = true ↔
  ∀ k v, document !! k = Some v →
         (k = "_id" ∨ k = "cmd") ∧ (v = Undefined ∨ v = Null ∨ ∃ c, v = Str c).
Proof.
  unfold validator, dispatch_schema. cbn [forallb snd orb]. rewrite andb_true_r.
  rewrite bool_decide_eq_true. unfold map_Forall.
  split; intros H k v Hk; destruct (H k v Hk) as [Hkey Hval]; split.
  - cbn in Hkey. rewrite !elem_of_cons, elem_of_nil in Hkey. tauto.
  - destruct v as [| |c|ms]; try discriminate; eauto.
  - cbn. rewrite !elem_of_cons. tauto.
  - by destruct Hval as [->|[->|[c ->]]].
Qed.

(** X6. Both dispatch methods accept exactly the documents whose properties
    are among _id and cmd and hold a string, null or undefined; cmd is
    optional, so a document stays acceptable when its cmd is taken away,
    and passes validation without cmd or with a null cmd.  A call with an
    accepted document that misses the dedup check returns undefined and
    starts the process, whose command line is the prefix of the method, a
    space and the cmd of the document: it ends in the word undefined when
    the document has no cmd and in the word null when cmd is null. *)
Theorem dispatch_command_line m document env s p :
  m = HLIDocker ∨ m = PublicDocker →
  started_by m document env s p →
  ∃ prefix,
    (m = HLIDocker ∧ prefix = "docker run --rm tanghaibao/tredparse" ∨
     m = PublicDocker ∧ prefix = "docker run --rm tanghaibao/tredparse-public") ∧
    (validate m document = true ↔
       ∀ k v, document !! k = Some v →
              (k = "_id" ∨ k = "cmd") ∧ (v = Undefined ∨ v = Null ∨ ∃ c, v = Str c)) ∧
    (validate m document = true → validate m (delete "cmd" document) = true) ∧
    (validate m document = true →
       Meteor_call env (name m) document s =
         (Result RUndefined,
          {| server := server s; processes := processes s ++ [p]; limiter := limiter s |})) ∧
    (∀ c, document !! "cmd" = Some (Str c) → command p = prefix +:+ " " +:+ c) ∧
    (document !! "cmd" = None → command p = prefix +:+ " undefined") ∧
    (document !! "cmd" = Some Null → command p = prefix +:+ " null").
Proof.
  intros Hm Hp.
  destruct (started_by_spawned _ _ _ _ _ Hm Hp) as [_ Hmiss].
  destruct (started_by_prefix _ _ _ _ _ Hm Hp) as (prefix & Hpre & ->).
  exists prefix. split; [done|].
  assert (Hval : validate m = validator dispatch_schema) by (by destruct Hm as [-> | ->]).
  assert (Hn : dispatch_method (name m) prefix).
  { destruct Hpre as [[-> ->] | [-> ->]]; constructor. }
  rewrite Hval. split; [apply validator_dispatch_schema|].
  split.
  { rewrite !validator_dispatch_schema. intros H k v Hk.
    apply lookup_delete_Some in Hk as [_ Hk]. by apply H. }
  split.
  { intros Hv. by rewrite (Meteor_call_miss _ _ _ _ _ Hn Hv Hmiss). }
  cbn [command spawned]. split; [|split].
  - intros c Hc. by rewrite (get_Str _ _ _ Hc).
  - intros Hc. by rewrite (get_absent _ _ Hc).
  - intros Hc. by rewrite (get_Str _ _ _ Hc).
Qed.

Lemma dispatch_command_line_witness :
  ∃ prefix,
    (HLIDocker = HLIDocker ∧ prefix = "docker run --rm tanghaibao/tredparse" ∨
     HLIDocker = PublicDocker ∧ prefix = "docker run --rm tanghaibao/tredparse-public") ∧
    (validate HLIDocker no_cmd = true ↔
       ∀ k v, no_cmd !! k = Some v →
              (k = "_id" ∨ k = "cmd") ∧ (v = Undefined ∨ v = Null ∨ ∃ c, v = Str c)) ∧
    (validate HLIDocker no_cmd = true → validate HLIDocker (delete "cmd" no_cmd) = true) ∧
    (validate HLIDocker no_cmd = true →
       Meteor_call env0 (name HLIDocker) no_cmd init =
         (Result RUndefined,
          {| server := server init;
             processes := processes init ++ [spawned hli_prefix no_cmd];
             limiter := limiter init |})) ∧
    (∀ c, no_cmd !! "cmd" = Some (Str c) →
          command (spawned hli_prefix no_cmd) = prefix +:+ " " +:+ c) ∧
    (no_cmd !! "cmd" = None → command (spawned hli_prefix no_cmd) = prefix +:+ " undefined") ∧
    (no_cmd !! "cmd" = Some Null → command (spawned hli_prefix no_cmd) = prefix +:+ " null").
Proof.
  apply (dispatch_command_line HLIDocker no_cmd env0 init (spawned hli_prefix no_cmd)).
  - left. reflexivity.
  - reflexivity.
Defined.

(** ** docker.hli and docker.public: the completion *)

(** X7. The completion of a process started by docker.hli or docker.public
    touches nothing but the console and the Record under the id drawn at
    completion: the processes, the limiter and every other Record stay as
    they were, and the console gains the line "exec error: " followed by the
    error exactly when err is non-null. *)
Theorem completion_touches_one_record m document env s p env' i r s' :
  m = HLIDocker ∨ m = PublicDocker →
  started_by m document env s p →
  processes s' !! i = Some p →
  let out := exec_done env' i r s' in
  processes out.2 = processes s' ∧
  limiter out.2 = limiter s' ∧
  console (server out.2) =
    console (server s') ++ match err r with
                           | Some e => ["exec error: " +:+ Error_toString e]
                           | None => []
                           end ∧
  (∀ j, j ≠ randomId env' → Documents (server out.2) !! j = Documents (server s') !! j).
Proof.
  intros Hm Hst Hi out. subst out.
  destruct (started_by_callback _ _ _ _ _ Hm Hst) as [Hcb _].
  destruct (decide (stdout r ≠ "" ∨ err r ≠ None)) as [Hp|Hp].
  - rewrite (exec_done_persists _ _ _ _ _ _ Hi Hcb Hp).
    cbn [snd server processes limiter console Documents].
    split; [done|]. split; [done|]. split; [done|].
    intros j Hj. by apply upsert_fresh_lookup_ne.
  - destruct (err r) as [e|] eqn:He; [destruct Hp; right; done|].
    destruct (stdout r) as [|c t] eqn:Ho; [|destruct Hp; left; done].
    rewrite (exec_done_throws _ _ _ _ _ _ Hi Hcb He Ho). cbn [snd].
    by rewrite app_nil_r.
Qed.

Lemma completion_touches_one_record_witness :
  let out := exec_done env1 0 failed_result echo_started in
  processes out.2 = processes echo_started ∧
  limiter out.2 = limiter echo_started ∧
  console (server out.2) =
    console (server echo_started) ++ match err failed_result with
                                     | Some e => ["exec error: " +:+ Error_toString e]
                                     | None => []
                                     end ∧
  (∀ j, j ≠ "id2" → Documents (server out.2) !! j = Documents (server echo_started) !! j).
Proof.
  apply (completion_touches_one_record HLIDocker echo_hi env0 init echo_process env1 0%nat
           failed_result echo_started).
  - left. reflexivity.
  - reflexivity.
  - reflexivity.
Defined.

(** ** Memoisation across calls *)

(** X8. Once a dispatch has run to completion and persisted its Record
    (stdout non-empty or err non-null, so also after a failure), the command
    is memoised for both entry points: the store holds exactly one Record
    with that title, one process was started, and every later dispatch of
    the same command through docker.hli or docker.public leaves the state
    unchanged. *)
Theorem dispatch_twice_runs_once n1 p1 n2 p2 e1 e1' doc1 doc2 c r1 s :
  dispatch_method n1 p1 →
  dispatch_method n2 p2 →
  validator dispatch_schema doc1 = true →
  doc1 !! "cmd" = Some (Str c) →
  doc2 !! "cmd" = Some (Str c) →
  (∀ i d, Documents (server s) !! i = Some d → d !! "title" ≠ Some (Str c)) →
  stdout r1 ≠ "" ∨ err r1 ≠ None →
  let s1 := call_to_completion e1 n1 doc1 e1' r1 s in
  processes s1 = processes s ++ [spawned p1 doc1] ∧
  (∃ d, Documents (server s1) !! randomId e1' = Some d ∧ d !! "title" = Some (Str c)) ∧
  (∀ j d, Documents (server s1) !! j = Some d → d !! "title" = Some (Str c) →
          j = randomId e1') ∧
  (∀ e2 e2' r2, call_to_completion e2 n2 doc2 e2' r2 s1 = s1).
Proof.
  intros Hn1 Hn2 Hv1 Hc1 Hc2 Hnone Hp s1.
  assert (Hcount : Collection.count
            (Collection.find "title" (get doc1 "cmd") (Documents (server s))) = 0%nat)
    by (rewrite (get_Str _ _ _ Hc1); by apply no_title_count).
  pose proof (completed_record _ _ e1 _ e1' _ _ Hn1 Hv1 Hcount Hp) as Hrec. fold s1 in Hrec.
  destruct (output_record_fields (get doc1 "cmd") (stored_body (err r1) (stdout r1))
              (stderr r1) (now e1') (default ∅ (Documents (server s) !! randomId e1'))
              (randomId e1')) as (Ht & _).
  assert (Hs1 : s1 = {| server := (Dispatcher_callback doc1 (err r1) (stdout r1) (stderr r1)
                                     e1' (server s)).2;
                        processes := processes s ++ [spawned p1 doc1];
                        limiter := limiter s |})
    by (subst s1; by apply call_to_completion_miss).
  split; [by rewrite Hs1|]. split.
  { eexists. split; [exact Hrec|]. rewrite Ht. by rewrite (get_Str _ _ _ Hc1). }
  split.
  - intros j d Hj Hd. destruct (decide (j = randomId e1')) as [|Hne]; [done|].
    rewrite Hs1 in Hj. cbn [server] in Hj.
    rewrite Dispatcher_callback_persists in Hj by done. cbn [snd Documents] in Hj.
    rewrite upsert_fresh_lookup_ne in Hj by done. by destruct (Hnone j d Hj).
  - intros e2 e2' r2. apply (call_to_completion_hit _ _ _ _ _ _ _ Hn2).
    rewrite (get_Str _ _ _ Hc2).
    eapply count_find_pos; [exact Hrec|]. apply field_is_Str.
    rewrite Ht. by rewrite (get_Str _ _ _ Hc1).
Qed.

Lemma dispatch_twice_runs_once_witness :
  let s1 := call_to_completion env0 "docker.hli" echo_hi env1 failed_result init in
  processes s1 = processes init ++ [spawned hli_prefix echo_hi] ∧
  (∃ d, Documents (server s1) !! "id2" = Some d ∧ d !! "title" = Some (Str "echo hi")) ∧
  (∀ j d, Documents (server s1) !! j = Some d → d !! "title" = Some (Str "echo hi") →
          j = "id2") ∧
  (∀ e2 e2' r2, call_to_completion e2 "docker.public" echo_hi e2' r2 s1 = s1).
Proof.
  apply (dispatch_twice_runs_once "docker.hli" hli_prefix "docker.public" public_prefix
           env0 env1 echo_hi echo_hi "echo hi" failed_result init).
  - constructor.
  - constructor.
  - reflexivity.
  - reflexivity.
  - reflexivity.
  - intros i d Hi. vm_compute in Hi. discriminate.
  - right. simpl. discriminate.
Defined.

(** X9. A run that ends with err null and empty stdout is never memoised:
    the callback throws before the write, the Documents stay as they were,
    and the next dispatch of the same command starts the process again. *)
Theorem silent_success_runs_again n1 p1 n2 p2 e1 e1' e2 doc1 doc2 c r s :
  dispatch_method n1 p1 →
  dispatch_method n2 p2 →
  validator dispatch_schema doc1 = true →
  validator dispatch_schema doc2 = true →
  doc1 !! "cmd" = Some (Str c) →
  doc2 !! "cmd" = Some (Str c) →
  (∀ i d, Documents (server s) !! i = Some d → d !! "title" ≠ Some (Str c)) →
  err r = None →
  stdout r = "" →
  let s1 := call_to_completion e1 n1 doc1 e1' r s in
  server s1 = server s ∧
  Meteor_call e2 n2 doc2 s1 =
    (Result RUndefined,
     {| server := server s;
        processes := processes s ++ [spawned p1 doc1; spawned p2 doc2];
        limiter := limiter s |}).
Proof.
  intros Hn1 Hn2 Hv1 Hv2 Hc1 Hc2 Hnone He Ho s1.
  assert (Hcount : ∀ doc, doc !! "cmd" = Some (Str c) →
            Collection.count
              (Collection.find "title" (get doc "cmd") (Documents (server s))) = 0%nat)
    by (intros doc Hd; rewrite (get_Str _ _ _ Hd); by apply no_title_count).
  assert (Hs1 : s1 = {| server := server s;
                        processes := processes s ++ [spawned p1 doc1];
                        limiter := limiter s |}).
  { subst s1. rewrite (call_to_completion_miss _ _ _ _ _ _ _ Hn1 Hv1 (Hcount doc1 Hc1)).
    rewrite He, Ho, Dispatcher_callback_throws. reflexivity. }
  rewrite Hs1. split; [done|].
  rewrite (Meteor_call_miss _ _ _ _ _ Hn2 Hv2) by (by apply Hcount).
  cbn [server processes limiter]. by rewrite <- app_assoc.
Qed.

Lemma silent_success_runs_again_witness :
  let s1 := call_to_completion env0 "docker.hli" echo_hi env1 silent_result init in
  server s1 = server init ∧
  Meteor_call env2 "docker.hli" echo_hi s1 =
    (Result RUndefined,
     {| server := server init;
        processes := processes init ++ [spawned hli_prefix echo_hi; spawned hli_prefix echo_hi];
        limiter := limiter init |}).
Proof.
  apply (silent_success_runs_again "docker.hli" hli_prefix "docker.hli" hli_prefix
           env0 env1 env2 echo_hi echo_hi "echo hi" silent_result init).
  - constructor.
  - constructor.
  - reflexivity.
  - reflexivity.
  - reflexivity.
  - reflexivity.
  - intros i d Hi. vm_compute in Hi. discriminate.
  - reflexivity.
  - reflexivity.
Defined.

(** X10. The dedup check is advisory: two dispatches of the same command
    issued before either process has completed both miss the check and both
    start a process; when both complete and persist, under different drawn
    ids, the store holds two Records with that title. *)
Theorem concurrent_dispatch_runs_twice n1 p1 n2 p2 e1 e2 e3 e4 doc1 doc2 c r1 r2 s :
  dispatch_method n1 p1 →
  dispatch_method n2 p2 →
  validator dispatch_schema doc1 = true →
  validator dispatch_schema doc2 = true →
  doc1 !! "cmd" = Some (Str c) →
  doc2 !! "cmd" = Some (Str c) →
  (∀ i d, Documents (server s) !! i = Some d → d !! "title" ≠ Some (Str c)) →
  stdout r1 ≠ "" ∨ err r1 ≠ None →
  stdout r2 ≠ "" ∨ err r2 ≠ None →
  randomId e3 ≠ randomId e4 →
  let s1 := (Meteor_call e1 n1 doc1 s).2 in
  let s2 := (Meteor_call e2 n2 doc2 s1).2 in
  let k := length (processes s) in
  let s3 := (exec_done e3 k r1 s2).2 in
  let s4 := (exec_done e4 (S k) r2 s3).2 in
  processes s4 = processes s ++ [spawned p1 doc1; spawned p2 doc2] ∧
  (∃ d3 d4,
     Documents (server s4) !! randomId e3 = Some d3 ∧
     Documents (server s4) !! randomId e4 = Some d4 ∧
     d3 !! "title" = Some (Str c) ∧
     d4 !! "title" = Some (Str c)) ∧
  ¬ unique_titles (Documents (server s4)).
Proof.
  intros Hn1 Hn2 Hv1 Hv2 Hc1 Hc2 Hnone Hp1 Hp2 Hne s1 s2 k s3 s4.
  assert (Hcount : ∀ doc, doc !! "cmd" = Some (Str c) →
            Collection.count
              (Collection.find "title" (get doc "cmd") (Documents (server s))) = 0%nat)
    by (intros doc Hd; rewrite (get_Str _ _ _ Hd); by apply no_title_count).
  assert (Hs2 : s2 = {| server := server s;
                        processes := processes s ++ [spawned p1 doc1; spawned p2 doc2];
                        limiter := limiter s |}).
  { subst s2 s1. rewrite (Meteor_call_miss _ _ _ _ _ Hn1 Hv1 (Hcount doc1 Hc1)). cbn [snd].
    rewrite (Meteor_call_miss _ _ _ _ _ Hn2 Hv2) by (by apply Hcount).
    cbn [snd server processes limiter]. by rewrite <- app_assoc. }
  assert (Hk1 : processes s2 !! k = Some (spawned p1 doc1))
    by (rewrite Hs2; cbn [processes]; by apply list_lookup_middle).
  pose proof (exec_done_persists e3 k r1 s2 _ doc1 Hk1 eq_refl Hp1) as H3.
  assert (Hk2 : processes s3 !! S k = Some (spawned p2 doc2)).
  { subst s3. rewrite H3. cbn [snd processes]. rewrite Hs2. cbn [processes].
    change (processes s ++ [spawned p1 doc1; spawned p2 doc2])
      with (processes s ++ [spawned p1 doc1] ++ [spawned p2 doc2]).
    rewrite app_assoc. apply list_lookup_middle. rewrite length_app. simpl. lia. }
  pose proof (exec_done_persists e4 (S k) r2 s3 _ doc2 Hk2 eq_refl Hp2) as H4.
  assert (Hd3 : ∃ d3, Documents (server s4) !! randomId e3 = Some d3 ∧
                      d3 !! "title" = Some (Str c)).
  { subst s4. rewrite H4. cbn [snd server Documents].
    rewrite upsert_fresh_lookup_ne by done.
    subst s3. rewrite H3. cbn [snd server Documents].
    rewrite upsert_fresh_lookup. eexists. split; [reflexivity|].
    rewrite (proj1 (output_record_fields _ _ _ _ _ _)).
    by rewrite (get_Str _ _ _ Hc1). }
  assert (Hd4 : ∃ d4, Documents (server s4) !! randomId e4 = Some d4 ∧
                      d4 !! "title" = Some (Str c)).
  { subst s4. rewrite H4. cbn [snd server Documents].
    rewrite upsert_fresh_lookup. eexists. split; [reflexivity|].
    rewrite (proj1 (output_record_fields _ _ _ _ _ _)).
    by rewrite (get_Str _ _ _ Hc2). }
  destruct Hd3 as (d3 & Hl3 & Ht3). destruct Hd4 as (d4 & Hl4 & Ht4).
  split.
  - subst s4. rewrite H4. cbn [snd processes]. subst s3. rewrite H3. cbn [snd processes].
    by rewrite Hs2.
  - split; [by exists d3, d4|].
    intros Hu. apply Hne. by apply (Hu c _ _ d3 d4).
Qed.

Lemma concurrent_dispatch_runs_twice_witness :
  let s1 := (Meteor_call env0 "docker.hli" echo_hi init).2 in
  let s2 := (Meteor_call env1 "docker.public" echo_hi s1).2 in
  let k := length (processes init) in
  let s3 := (exec_done env2 k hi_result s2).2 in
  let s4 := (exec_done env3 (S k) failed_result s3).2 in
  processes s4 = processes init ++ [spawned hli_prefix echo_hi; spawned public_prefix echo_hi] ∧
  (∃ d3 d4,
     Documents (server s4) !! "id3" = Some d3 ∧
     Documents (server s4) !! "id4" = Some d4 ∧
     d3 !! "title" = Some (Str "echo hi") ∧
     d4 !! "title" = Some (Str "echo hi")) ∧
  ¬ unique_titles (Documents (server s4)).
Proof.
  apply (concurrent_dispatch_runs_twice "docker.hli" hli_prefix "docker.public" public_prefix
           env0 env1 env2 env3 echo_hi echo_hi "echo hi" hi_result failed_result init).
  - constructor.
  - constructor.
  - reflexivity.
  - reflexivity.
  - reflexivity.
  - reflexivity.
  - intros i d Hi. vm_compute in Hi. discriminate.
  - left. vm_compute. discriminate.
  - right. simpl. discriminate.
  - discriminate.
Defined.

(** X11. A Record written by documents.upsert with a title pre-empts the
    command of that title: after the upsert, whatever its _id, a dispatch
    of that command through docker.hli or docker.public returns null and
    starts no process. *)
Theorem upsert_title_blocks_dispatch document m doc c env env' s :
  document !! "title" = Some (Str c) →
  m = HLIDocker ∨ m = PublicDocker →
  doc !! "cmd" = Some (Str c) →
  let s1 := (run upsertDocument document env s).2 in
  run m doc env' s1 = (Normal RNull, s1).
Proof.
  intros Ht Hm Hc s1.
  destruct (dispatch_method_run m Hm) as (n & prefix & _ & _ & -> & _).
  apply Dispatcher_run_hit. rewrite (get_Str _ _ _ Hc).
  subst s1. rewrite run_upsertDocument. cbn [snd server Documents].
  eapply count_find_pos.
  - unfold Collection.upsert. apply lookup_insert_eq.
  - apply field_is_Str. rewrite lookup_insert_ne by done.
    by apply (set_fields_lookup _ _ _ (Str c)).
Qed.

Lemma upsert_title_blocks_dispatch_witness :
  let s1 := (run upsertDocument {[ "title" := Str "echo hi" ]} env0 init).2 in
  run HLIDocker echo_hi env1 s1 = (Normal RNull, s1).
Proof.
  apply (upsert_title_blocks_dispatch {[ "title" := Str "echo hi" ]} HLIDocker echo_hi
           "echo hi" env0 env1 init).
  - reflexivity.
  - left. reflexivity.
  - reflexivity.
Defined.

(** X12. Removing the Record of a command makes the command runnable again:
    when the only Record with that title is the one under the removed id, a
    dispatch after the documents.remove misses the dedup check, returns
    undefined and starts a process. *)
Theorem remove_reenables_dispatch i m doc c env env' s :
  (∀ j d, Documents (server s) !! j = Some d → d !! "title" = Some (Str c) → j = i) →
  m = HLIDocker ∨ m = PublicDocker →
  doc !! "cmd" = Some (Str c) →
  let s1 := (run removeDocument {[ "_id" := Str i ]} env s).2 in
  (run m doc env' s1).1 = Normal RUndefined ∧
  ∃ p, started_by m doc env' s1 p.
Proof.
  intros Honly Hm Hc s1.
  destruct (dispatch_method_run m Hm) as (n & prefix & _ & _ & Hrun & _).
  assert (Hcount : Collection.count
            (Collection.find "title" (get doc "cmd") (Documents (server s1))) = 0%nat).
  { rewrite (get_Str _ _ _ Hc). apply no_title_count. intros j d Hj Hd.
    subst s1. rewrite run_removeDocument in Hj. cbn [snd server Documents] in Hj.
    change (get ({[ "_id" := Str i ]} : object) "_id") with (default Undefined
      (({[ "_id" := Str i ]} : object) !! "_id")) in Hj.
    rewrite lookup_singleton_eq in Hj. cbn [default id Collection.remove] in Hj.
    apply lookup_delete_Some in Hj as [Hne Hj]. by destruct Hne, (Honly j d Hj Hd). }
  unfold started_by. rewrite Hrun, Dispatcher_run_miss by done.
  split; [done|]. by eexists.
Qed.

Lemma remove_reenables_dispatch_witness :
  let s1 := (run removeDocument {[ "_id" := Str "id2" ]} env2 after_echo).2 in
  (run PublicDocker echo_hi env3 s1).1 = Normal RUndefined ∧
  ∃ p, started_by PublicDocker echo_hi env3 s1 p.
Proof.
  apply (remove_reenables_dispatch "id2" PublicDocker echo_hi "echo hi" env2 env3 after_echo).
  - intros j d Hj Hd.
    assert (Hdocs : Documents (server after_echo) =
                    {[ "id2" := <["_id" := Str "id2"]>
                                  (output_literal (Str "echo hi") hi_newline "" 40) ]})
      by (vm_compute; reflexivity).
    rewrite Hdocs in Hj. by apply lookup_singleton_Some in Hj as [<- _].
  - right. reflexivity.
  - reflexivity.
Defined.

(** ** Validation *)

Lemma find_method_name m : m ∈ methods → find_method (name m) = Some m.
Proof.
  unfold methods. rewrite !elem_of_cons, elem_of_nil.
  intros [->|[->|[->|[->|[]]]]]; reflexivity.
Qed.

(** X13. documents.remove accepts exactly the arguments { _id: string }: an
    argument without _id, with a value that is no string or with any other
    property fails validation. *)
Theorem remove_accepts_only_an_id document :
  validate removeDocument document = true ↔ ∃ i, document = {[ "_id" := Str i ]}.
Proof.
  change (validate removeDocument document) with (validator [("_id", false)] document).
  unfold validator. rewrite andb_true_iff, bool_decide_eq_true. split.
  - intros [Hall Hreq]. cbn [forallb snd fst orb] in Hreq. rewrite andb_true_r in Hreq.
    unfold get in Hreq. destruct (document !! "_id") as [v|] eqn:Hv; [|discriminate].
    destruct (Hall "_id" v Hv) as [_ Hstr].
    destruct v as [| |i|]; try discriminate.
    exists i. apply map_eq. intros k. destruct (decide (k = "_id")) as [->|Hk].
    + by rewrite lookup_singleton_eq.
    + rewrite lookup_singleton_ne by done.
      destruct (document !! k) as [w|] eqn:Hw; [|done].
      destruct (Hall k w Hw) as [Hin _]. simpl in Hin.
      apply list_elem_of_singleton in Hin. done.
  - intros [i ->]. split.
    + apply map_Forall_singleton. split; [|done]. simpl. by apply list_elem_of_singleton.
    + cbn [forallb snd fst orb]. unfold get. by rewrite lookup_singleton_eq.
Qed.

Lemma forallb_false {A} (g : A → bool) (l : list A) :
  forallb g l = false ↔ ∃ x, x ∈ l ∧ g x = false.
Proof.
  induction l as [|a l IH]; cbn [forallb].
  - split; [discriminate|]. intros (x & Hx & _). by apply elem_of_nil in Hx.
  - rewrite andb_false_iff, IH. split.
    + intros [Ha | (x & Hx & Hg)]; [exists a|exists x]; rewrite elem_of_cons; auto.
    + intros (x & Hx & Hg). apply elem_of_cons in Hx as [-> | Hx]; [by left|].
      right. by exists x.
Qed.

(** The validator refuses an argument exactly when it breaks the schema. *)
Lemma validator_false schema args :
  validator schema args = false ↔ breaks schema args.
Proof.
  unfold validator, breaks. rewrite andb_false_iff, bool_decide_eq_false, forallb_false.
  rewrite map_not_Forall by (intros; apply _). unfold map_Exists. split.
  - intros [(k & v & Hk & Hbad) | ([k opt] & Hin & Hreq)].
    + destruct (decide (k ∈ schema.*1)) as [Hkey|Hkey]; [|left; eauto].
      right. left. exists k, v. split; [done|].
      destruct (is_set v) eqn:Hset, (is_Str v) eqn:Hstr; try done;
        exfalso; apply Hbad; by split.
    + right. right. cbn [fst snd] in Hreq. apply orb_false_iff in Hreq as [-> Hreq].
      by exists k.
  - intros [(k & v & Hk & Hkey) | [(k & v & Hk & Hset & Hstr) | (k & Hin & Hreq)]].
    + left. exists k, v. split; [done|]. by intros [? _].
    + left. exists k, v. split; [done|]. intros [_ H]. by rewrite Hset, Hstr in H.
    + right. exists (k, false). split; [done|]. cbn [fst snd]. by rewrite Hreq.
Qed.

Lemma method_schema_validate m schema :
  method_schema m schema → m ∈ methods ∧ validate m = validator schema.
Proof.
  unfold methods. intros []; (split; [|reflexivity]); rewrite !elem_of_cons; auto.
Qed.

(** X14. A call is refused with ValidationError only on the grounds the
    schema of its method gives: a property the schema does not list, a
    property set to something that is no string, or a required key left
    unset (null and undefined count as unset).  A call whose argument breaks
    the schema in one of these ways reaches neither the Documents nor exec:
    for each of the four methods it fails (with ValidationError, or
    RateLimitExceeded when the limiter refuses it first) and the Documents,
    the console and the processes are unchanged. *)
Theorem invalid_arguments_change_nothing m schema args env s :
  method_schema m schema →
  let out := Meteor_call env (name m) args s in
  (validate m args = false ↔ breaks schema args) ∧
  (out.1 = Failure ValidationError → breaks schema args) ∧
  (breaks schema args →
     (out.1 = Failure ValidationError ∨ out.1 = Failure RateLimitExceeded) ∧
     server out.2 = server s ∧
     processes out.2 = processes s).
Proof.
  intros Hms out. subst out.
  destruct (method_schema_validate m schema Hms) as [Hm Hval].
  split; [rewrite Hval; apply validator_false|].
  unfold Meteor_call.
  destruct (RateLimit.allow rule (name m) (connection env) (now env) (limiter s)) as [ok l].
  destruct ok.
  - rewrite (find_method_name m Hm). split.
    + destruct (validate m args) eqn:Hv.
      * destruct (run m args env (set_limiter l s)) as [[r|e] s1]; discriminate.
      * intros _. apply validator_false. by rewrite <- Hval.
    + intros Hb. apply validator_false in Hb. rewrite <- Hval in Hb. rewrite Hb.
      by split; [left|].
  - split; [discriminate|]. intros _. by split; [right|].
Qed.

Lemma invalid_arguments_change_nothing_witness :
  let out := Meteor_call env0 (name HLIDocker) with_cwd init in
  (validate HLIDocker with_cwd = false ↔ breaks dispatch_schema with_cwd) ∧
  (out.1 = Failure ValidationError → breaks dispatch_schema with_cwd) ∧
  (breaks dispatch_schema with_cwd →
     (out.1 = Failure ValidationError ∨ out.1 = Failure RateLimitExceeded) ∧
     server out.2 = server init ∧
     processes out.2 = processes init).
Proof.
  apply (invalid_arguments_change_nothing HLIDocker dispatch_schema with_cwd env0 init).
  constructor.
Defined.

(** ** The submission form *)

Lemma setState_listed k v (state : object) :
  FormInput.setState {[ k := v ]} state !! k = Some v.
Proof.
  unfold FormInput.setState. rewrite <- insert_union_singleton_l. apply lookup_insert_eq.
Qed.

Lemma setState_other k v (state : object) k' :
  k' ≠ k → FormInput.setState {[ k := v ]} state !! k' = state !! k'.
Proof.
  intros H. unfold FormInput.setState. rewrite <- insert_union_singleton_l.
  by apply lookup_insert_ne.
Qed.

Ltac form_lookup :=
  repeat match goal with
         | |- context [FormInput.setState {[ ?k := ?v ]} ?st !! ?k'] =>
             first [ rewrite (setState_other k v st k') by done
                   | rewrite (setState_listed k v st) ]
         end.

Lemma form_invariant_step all state e :
  e ∈ all → form_invariant all state → form_invariant all (FormInput.step state e).
Proof.
  intros He (Hbam & Htred & Hval & Hid).
  destruct e as [v| | |i err]; unfold FormInput.step, FormInput.handleChange,
    FormInput.clickHTTP, FormInput.clickS3, FormInput.handleSubmit, form_invariant;
    cbn [FormInput.call_callback]; form_lookup.
  - split; [done|]. split; [done|]. split; [right; eauto|done].
  - split; [by right|]. done.
  - split; [by left|]. done.
  - split; [done|]. split; [done|]. split; [done|]. right. eauto.
Qed.

Lemma form_invariant_foldl all events state :
  (∀ e, e ∈ events → e ∈ all) →
  form_invariant all state →
  form_invariant all (foldl FormInput.step state events).
Proof.
  revert state. induction events as [|e events IH]; intros state Hsub Hinv; [done|].
  simpl. apply IH.
  - intros e' He'. apply Hsub. by right.
  - apply form_invariant_step; [apply Hsub; by left|done].
Qed.

(** X15. Whatever is typed, clicked or answered, the form keeps bam at one
    of its two defaults (the S3 path or the empty HTTP default) and tred at
    HD: handleChange stores the typed text under value, never under bam.
    The currentId is empty or the id of an answered submission. *)
Theorem typed_text_never_reaches_bam events :
  let state := FormInput.after events in
  (state !! "bam" = Some (Str FormInput.Default_s3BAM) ∨
   state !! "bam" = Some (Str FormInput.Default_httpBAM)) ∧
  state !! "tred" = Some (Str "HD") ∧
  (state !! "value" = None ∨
   ∃ v, FormInput.Change v ∈ events ∧ state !! "value" = Some (Str v)) ∧
  (state !! "currentId" = Some (Str "") ∨
   ∃ i err, FormInput.Answered i err ∈ events ∧ state !! "currentId" = Some (Str i)).
Proof.
  apply (form_invariant_foldl events events FormInput.getInitialState); [done|].
  unfold form_invariant. split; [left; reflexivity|]. split; [reflexivity|].
  split; left; reflexivity.
Qed.

(** X16. Once a submission with a non-empty id has been answered, with or
    without an error, the form shows Loading until the subscription is ready
    and the Documents hold a Record under that id, and then the title and
    the body of that Record. *)
Theorem view_after_answer currentId err state ready (c : gmap string object) :
  currentId ≠ "" →
  let state' := FormInput.call_callback (FormInput.handleSubmit currentId) err state in
  FormInput.render state' (FormInput.getMeteorData ready state' c) =
    if ready then
      match c !! currentId with
      | Some post => FormInput.Content (Str currentId) (get post "title") (get post "body")
      | None => FormInput.Loading
      end
    else FormInput.Loading.
Proof.
  intros Hne state'.
  assert (Hid : get state' "currentId" = Str currentId)
    by (apply get_Str; subst state'; apply setState_listed).
  assert (Htruthy : truthy (Str currentId) = true) by (by apply truthy_Str).
  unfold FormInput.render, FormInput.getMeteorData, FormInput.getContent.
  rewrite Hid. unfold Collection.findOne.
  destruct ready; [|by rewrite Htruthy].
  destruct (c !! currentId); [done|by rewrite Htruthy].
Qed.

Lemma view_after_answer_witness :
  let state' := FormInput.call_callback (FormInput.handleSubmit "id2") (Some MethodNotFound)
                  FormInput.getInitialState in
  FormInput.render state' (FormInput.getMeteorData true state' (Documents (server after_echo))) =
    if true then
      match Documents (server after_echo) !! "id2" with
      | Some post => FormInput.Content (Str "id2") (get post "title") (get post "body")
      | None => FormInput.Loading
      end
    else FormInput.Loading.
Proof.
  apply (view_after_answer "id2" (Some MethodNotFound) FormInput.getInitialState true
           (Documents (server after_echo))).
  discriminate.
Defined.

(** ** What exec is given *)

Lemma spawned_is_docker_run n prefix doc :
  dispatch_method n prefix →
  maxBuffer (spawned prefix doc) = 1024 * 1000 ∧
  ∃ rest, command (spawned prefix doc) = "docker run --rm tanghaibao/tredparse" +:+ rest.
Proof.
  intros [|]; (split; [reflexivity|]); cbn [command spawned].
  - by exists (" " +:+ interpolate (get doc "cmd")).
  - by exists ("-public " +:+ interpolate (get doc "cmd")).
Qed.

(** The processes after a call: those before, and at most one more, started
    by one of the two dispatch methods. *)
Lemma Meteor_call_processes env n args s :
  processes (Meteor_call env n args s).2 = processes s ∨
  ∃ prefix, dispatch_method n prefix ∧
            processes (Meteor_call env n args s).2 = processes s ++ [spawned prefix args].
Proof.
  assert (Hd : ∀ prefix, dispatch_method n prefix →
            processes (Meteor_call env n args s).2 = processes s ∨
            ∃ prefix, dispatch_method n prefix ∧
              processes (Meteor_call env n args s).2 = processes s ++ [spawned prefix args]).
  { intros prefix Hn. rewrite (Meteor_call_dispatch _ _ _ _ _ Hn).
    destruct (validator dispatch_schema args); [|by left].
    destruct (decide (Collection.count
      (Collection.find "title" (get args "cmd") (Documents (server s))) = 0%nat)) as [Hc|Hc].
    - rewrite Dispatcher_run_miss by done. right. by exists prefix.
    - rewrite Dispatcher_run_hit by done. by left. }
  destruct (decide (n = "docker.hli")) as [->|H2]; [apply (Hd _ dispatch_hli)|].
  destruct (decide (n = "docker.public")) as [->|H3]; [apply (Hd _ dispatch_public)|].
  left. by destruct (Meteor_call_not_dispatch env n args s H2 H3).
Qed.

Lemma exec_done_processes env i r s : processes (exec_done env i r s).2 = processes s.
Proof.
  unfold exec_done. destruct (processes s !! i) as [p|]; [|done].
  unfold lift. by destruct (callback p (err r) (stdout r) (stderr r) env (server s)).
Qed.

Lemma serve_only_docker_runs s e : only_docker_runs s → only_docker_runs (serve s e).
Proof.
  intros Hs. destruct e as [env n args|env i r]; simpl.
  - destruct (Meteor_call_processes env n args s) as [Hp|(prefix & Hn & Hp)];
      unfold only_docker_runs; rewrite Hp; [done|].
    intros p Hin. apply elem_of_app in Hin as [Hin|Hin]; [by apply Hs|].
    apply list_elem_of_singleton in Hin as ->. by apply (spawned_is_docker_run n).
  - unfold only_docker_runs. by rewrite exec_done_processes.
Qed.

(** X17. Whatever calls arrive and whatever results exec delivers, every
    process the server has handed to exec was started with maxBuffer
    1024 * 1000 on a command line that begins with
    docker run --rm tanghaibao/tredparse; no other program is ever run and
    no started process is dropped or replaced. *)
Theorem exec_only_runs_docker events :
  only_docker_runs (served events) ∧
  ∀ e, ∃ more, processes (served (events ++ [e])) = processes (served events) ++ more.
Proof.
  split.
  - unfold served.
    assert (H : ∀ s, only_docker_runs s → only_docker_runs (foldl serve s events)).
    { induction events as [|e events IH]; intros s Hs; [done|].
      simpl. apply IH. by apply serve_only_docker_runs. }
    apply H. intros p Hp. simpl in Hp. by apply elem_of_nil in Hp.
  - intros e. unfold served. rewrite foldl_app. simpl.
    destruct e as [env n args|env i r]; simpl.
    + destruct (Meteor_call_processes env n args (foldl serve init events))
        as [->|(prefix & _ & ->)]; [exists []; by rewrite app_nil_r|by eexists].
    + exists []. by rewrite exec_done_processes, app_nil_r.
Qed.

(** ** The error payload *)

(** X18. The body stored for a failure identifies the failure: the string
    inside the payload reads back to the error text (every quote, backslash
    and control character in it is escaped), and two error texts with the
    same payload are the same text. *)
Theorem error_payload_identifies_error s1 s2 :
  unescape (JSON.escape s1) = Some s1 ∧
  (JSON.stringify_error s1 = JSON.stringify_error s2 → s1 = s2).
Proof.
  split; [apply unescape_escape|].
  unfold JSON.stringify_error, JSON.quoted. intros H.
  change ("{" +:+ ?x) with (String "{" x) in H. simpl in H.
  injection H as H.
  rewrite !append_assoc in H. apply append_inv_tail in H.
  apply (f_equal unescape) in H. rewrite !unescape_escape in H. by injection H.
Qed.
